(** * JitHashTable: a shallow embedding of src/coreclr/jit/jithashtable.h

    The bucket array [Node** m_table] is [option (list (list Node))]:
    [None] is [nullptr], and each bucket is its chain of nodes, head first.
    [unsigned] values are [Z] with the 32-bit wrap-around written out
    ([u32]).  Every member function returns a [res]: a normal return, a
    failed debug [assert], the noreturn [Behavior::NoMemory()] hook, or
    undefined behaviour (null dereference, out-of-range read, [x % 0]). *)

From Stdlib Require Import ZArith List Permutation Lia Bool.
Import ListNotations.
Open Scope Z_scope.

Inductive res (A : Type) : Type :=
| Ok (a : A)
| Assert_failed
| No_memory
| Undefined.
Arguments Ok {A} a.
Arguments Assert_failed {A}.
Arguments No_memory {A}.
Arguments Undefined {A}.

Definition bind {A B : Type} (r : res A) (f : A -> res B) : res B :=
  match r with
  | Ok a => f a
  | Assert_failed => Assert_failed
  | No_memory => No_memory
  | Undefined => Undefined
  end.

Notation "'let*' x ':=' r 'in' f" := (bind r (fun x => f))
  (at level 200, x name, r at level 100, f at level 200).

(** [assert(b)] of a checked build. *)
Definition assert_ (b : bool) : res unit := if b then Ok tt else Assert_failed.

(** Conversion to / arithmetic in [unsigned]. *)
Definition u32 (z : Z) : Z := z mod 2 ^ 32.

(** ** JitHashTableBehavior *)

Record Behavior := mkBehavior {
  s_growth_factor_numerator : Z;
  s_growth_factor_denominator : Z;
  s_density_factor_numerator : Z;
  s_density_factor_denominator : Z;
  s_minimum_allocation : Z
}.

Definition JitHashTableBehavior : Behavior := mkBehavior 3 2 3 4 7.

(** ** JitPrimeInfo *)

Record JitPrimeInfo := mkJitPrimeInfo {
  prime : Z;
  magic : Z;
  shift : Z
}.

(** The default constructor [JitPrimeInfo()]. *)
Definition JitPrimeInfo_default : JitPrimeInfo := mkJitPrimeInfo 0 0 0.

(** [magicNumberDivide]: 64-bit product (no wrap: both factors are
    32-bit), shifted, then cast back to [unsigned]. *)
Definition magicNumberDivide (pi : JitPrimeInfo) (numerator : Z) : Z :=
  u32 (Z.shiftr (numerator * magic pi) (32 + shift pi)).

(** The value [numerator - div * prime] computed by [magicNumberRem]. *)
Definition magicNumberRem_value (pi : JitPrimeInfo) (numerator : Z) : Z :=
  u32 (numerator - magicNumberDivide pi numerator * prime pi).

(** [magicNumberRem], with its [assert(result == numerator % prime)];
    [numerator % 0] is undefined. *)
Definition magicNumberRem (pi : JitPrimeInfo) (numerator : Z) : res Z :=
  let result := magicNumberRem_value pi numerator in
  if prime pi =? 0 then Undefined
  else let* _ := assert_ (result =? numerator mod prime pi) in Ok result.

(** [m_table[i] = x] on a list; only used at indices read just before. *)
Fixpoint set_nth {A : Type} (l : list A) (i : nat) (x : A) : list A :=
  match l, i with
  | [], _ => []
  | _ :: l', O => x :: l'
  | y :: l', S i' => y :: set_nth l' i' x
  end.

Inductive SetKind := SetKind_None | Overwrite.

(** A four-entry prime table for concrete runs.  Each magic number is the
    32-bit [ceil (2^(32 + shift) / prime)], which meets the exactness
    criterion proved in [magic_exact]. *)
Definition sample_primes : list JitPrimeInfo :=
  [mkJitPrimeInfo 11 3123612579 3; mkJitPrimeInfo 23 2987803337 4;
   mkJitPrimeInfo 47 2924233053 5; mkJitPrimeInfo 131 4196609267 7].

(** [sample_primes] preceded by the prime 5 (magic [ceil (2^34 / 5)]). *)
Definition sample_primes5 : list JitPrimeInfo := mkJitPrimeInfo 5 3435973837 2 :: sample_primes.


(** ** Commonly used KeyFuncs *)

(** [JitPtrKeyFuncs<T>::GetHashCode]: the lower 32 bits of the address;
    [ptr] is the [uintptr_t] value of the pointer. *)
Definition JitPtrKeyFuncs_GetHashCode (ptr : Z) : Z := u32 ptr.

(** [JitSmallPrimitiveKeyFuncs<T>::GetHashCode]: [static_cast<unsigned>(val)]. *)
Definition JitSmallPrimitiveKeyFuncs_GetHashCode (val : Z) : Z := u32 val.

(** [JitLargePrimitiveKeyFuncs<T>::GetHashCode] with [sizeof(T) = sz]:
    [bits] is the object representation of the key read as an unsigned
    integer of [sz] bytes ([asUINT64] or [asUINT32]), [val] its value, used
    by [static_cast<unsigned>(val)]. *)
Definition JitLargePrimitiveKeyFuncs_GetHashCode (sz val bits : Z) : res Z :=
  if sz =? 8 then
    let upper32 := u32 (Z.shiftr bits 32) in
    let lower32 := u32 (Z.land bits 4294967295) in
    Ok (Z.lxor upper32 lower32)
  else if sz =? 4 then Ok (u32 bits)
  else if (sz =? 2) || (sz =? 1) then Ok (u32 val)
  else let* _ := assert_ false in Ok (u32 val).

Section JitHashTable.

Variables Key Value : Type.
(** [KeyFuncs::GetHashCode] and [KeyFuncs::Equals]. *)
Variable GetHashCode : Key -> Z.
Variable Equals : Key -> Key -> bool.
Variable Beh : Behavior.
(** [extern const JitPrimeInfo jitPrimeInfo[27]]: its definition is not
    part of jithashtable.h, so the table is a parameter. *)
Variable jitPrimeInfo : list JitPrimeInfo.

Definition Node : Type := (Key * Value)%type.

Record JitHashTable := mkJitHashTable {
  m_table : option (list (list Node));
  m_tableSizeInfo : JitPrimeInfo;
  m_tableCount : Z;
  m_tableMax : Z
}.

(** The constructor [JitHashTable(alloc)]. *)
Definition empty_table : JitHashTable :=
  mkJitHashTable None JitPrimeInfo_default 0 0.

Definition GetCount (t : JitHashTable) : Z := m_tableCount t.

Definition with_table (t : JitHashTable) (b : list (list Node)) : JitHashTable :=
  mkJitHashTable (Some b) (m_tableSizeInfo t) (m_tableCount t) (m_tableMax t).

Definition with_count (t : JitHashTable) (c : Z) : JitHashTable :=
  mkJitHashTable (m_table t) (m_tableSizeInfo t) c (m_tableMax t).

(** Reading [m_table[index]]. *)
Definition read_bucket (t : JitHashTable) (index : Z) : res (list Node) :=
  match m_table t with
  | None => Undefined
  | Some b =>
      match nth_error b (Z.to_nat index) with
      | Some c => Ok c
      | None => Undefined
      end
  end.

(** Writing [m_table[index]]. *)
Definition write_bucket (t : JitHashTable) (index : Z) (c : list Node) : JitHashTable :=
  match m_table t with
  | None => t
  | Some b => with_table t (set_nth b (Z.to_nat index) c)
  end.

(** The chain walk [while (pN != nullptr && !Equals(k, pN->m_key))]. *)
Fixpoint find_node (k : Key) (c : list Node) : option Node :=
  match c with
  | [] => None
  | n :: c' => if Equals k (fst n) then Some n else find_node k c'
  end.

(** [pN->m_val = v] on the node found by the walk. *)
Fixpoint overwrite_chain (k : Key) (v : Value) (c : list Node) : list Node :=
  match c with
  | [] => []
  | n :: c' => if Equals k (fst n) then (fst n, v) :: c' else n :: overwrite_chain k v c'
  end.

(** [*ppN = pN->m_next] on the node found by the walk. *)
Fixpoint unlink_chain (k : Key) (c : list Node) : list Node :=
  match c with
  | [] => []
  | n :: c' => if Equals k (fst n) then c' else n :: unlink_chain k c'
  end.

Definition GetIndexForKey (t : JitHashTable) (k : Key) : res Z :=
  magicNumberRem (m_tableSizeInfo t) (u32 (GetHashCode k)).

Definition FindNode (t : JitHashTable) (k : Key) : res (option Node) :=
  if prime (m_tableSizeInfo t) =? 0 then Ok None
  else
    let* index := GetIndexForKey t k in
    let* pN := read_bucket t index in
    Ok (find_node k pN).

(** [Lookup(k, pVal)]: [pVal] is [None] for [nullptr] and [Some old]
    for a location holding [old]; the result pairs the return value with
    the location's content afterwards. *)
Definition Lookup (t : JitHashTable) (k : Key) (pVal : option Value)
    : res (bool * option Value) :=
  let* pN := FindNode t k in
  match pN with
  | Some n =>
      Ok (true, match pVal with Some _ => Some (snd n) | None => None end)
  | None => Ok (false, pVal)
  end.

(** [LookupPointer(k)]: the value behind the returned pointer. *)
Definition LookupPointer (t : JitHashTable) (k : Key) : res (option Value) :=
  let* pN := FindNode t k in Ok (option_map snd pN).

Fixpoint NextPrime_from (l : list JitPrimeInfo) (number : Z) : res JitPrimeInfo :=
  match l with
  | [] => No_memory
  | e :: l' => if number <=? prime e then Ok e else NextPrime_from l' number
  end.

Definition NextPrime (number : Z) : res JitPrimeInfo :=
  NextPrime_from jitPrimeInfo number.

(** Relinking one old chain into the new bucket array, head first. *)
Fixpoint relink_chain (newPrime : JitPrimeInfo) (c : list Node)
    (newTable : list (list Node)) : res (list (list Node)) :=
  match c with
  | [] => Ok newTable
  | pN :: c' =>
      let* newIndex := magicNumberRem newPrime (u32 (GetHashCode (fst pN))) in
      match nth_error newTable (Z.to_nat newIndex) with
      | None => Undefined
      | Some hd =>
          relink_chain newPrime c' (set_nth newTable (Z.to_nat newIndex) (pN :: hd))
      end
  end.

(** The loop [for (i = 0; i < m_tableSizeInfo.prime; i++)] of [Reallocate]. *)
Fixpoint move_buckets (t : JitHashTable) (newPrime : JitPrimeInfo) (idx : list nat)
    (newTable : list (list Node)) : res (list (list Node)) :=
  match idx with
  | [] => Ok newTable
  | i :: idx' =>
      let* pN := read_bucket t (Z.of_nat i) in
      let* newTable := relink_chain newPrime pN newTable in
      move_buckets t newPrime idx' newTable
  end.

Definition Reallocate (t : JitHashTable) (newTableSize : Z) : res JitHashTable :=
  let* _ := assert_ (u32 (m_tableCount t * s_density_factor_denominator Beh)
                       / s_density_factor_numerator Beh <=? newTableSize) in
  let* newPrime := NextPrime newTableSize in
  let newTableSize := prime newPrime in
  let newTable := repeat [] (Z.to_nat newTableSize) in
  let* newTable := move_buckets t newPrime
                     (seq 0 (Z.to_nat (prime (m_tableSizeInfo t)))) newTable in
  Ok (mkJitHashTable (Some newTable) newPrime (m_tableCount t)
        (u32 (newTableSize * s_density_factor_numerator Beh)
           / s_density_factor_denominator Beh)).

(** The size computed by [Grow], before the overflow check:
    [count * gnum / gden * dden / dnum] in [unsigned], then raised to the
    minimum allocation. *)
Definition GrowSize (count : Z) : Z :=
  let newSize :=
    u32 (u32 (count * s_growth_factor_numerator Beh) / s_growth_factor_denominator Beh
         * s_density_factor_denominator Beh) / s_density_factor_numerator Beh in
  if newSize <? s_minimum_allocation Beh then s_minimum_allocation Beh else newSize.

Definition Grow (t : JitHashTable) : res JitHashTable :=
  let newSize := GrowSize (m_tableCount t) in
  if newSize <? m_tableCount t then No_memory
  else Reallocate t newSize.

(** The condition tested by [CheckGrowth]. *)
Definition needs_growth (t : JitHashTable) : bool := m_tableCount t =? m_tableMax t.

Definition CheckGrowth (t : JitHashTable) : res JitHashTable :=
  if needs_growth t then Grow t else Ok t.

Definition is_Overwrite (kind : SetKind) : bool :=
  match kind with Overwrite => true | SetKind_None => false end.

Definition Set_ (t : JitHashTable) (k : Key) (v : Value) (kind : SetKind)
    : res (bool * JitHashTable) :=
  let* t := CheckGrowth t in
  let* _ := assert_ (negb (prime (m_tableSizeInfo t) =? 0)) in
  let* index := GetIndexForKey t k in
  let* pN := read_bucket t index in
  match find_node k pN with
  | Some _ =>
      let* _ := assert_ (is_Overwrite kind) in
      Ok (true, write_bucket t index (overwrite_chain k v pN))
  | None =>
      Ok (false, with_count (write_bucket t index ((k, v) :: pN))
                            (u32 (m_tableCount t + 1)))
  end.

(** [LookupPointerOrAdd(k, defaultValue)]: the value behind the returned
    pointer, and the table. *)
Definition LookupPointerOrAdd (t : JitHashTable) (k : Key) (defaultValue : Value)
    : res (Value * JitHashTable) :=
  let* t := CheckGrowth t in
  let* _ := assert_ (negb (prime (m_tableSizeInfo t) =? 0)) in
  let* index := GetIndexForKey t k in
  let* n := read_bucket t index in
  match find_node k n with
  | Some n => Ok (snd n, t)
  | None =>
      Ok (defaultValue, with_count (write_bucket t index ((k, defaultValue) :: n))
                                   (u32 (m_tableCount t + 1)))
  end.

(** [Emplace(k, args...)]: [v] is the value the arguments construct. *)
Definition Emplace (t : JitHashTable) (k : Key) (v : Value)
    : res (Value * JitHashTable) :=
  let* t := CheckGrowth t in
  let* _ := assert_ (negb (prime (m_tableSizeInfo t) =? 0)) in
  let* index := GetIndexForKey t k in
  let* n := read_bucket t index in
  match find_node k n with
  | Some n => Ok (snd n, t)
  | None =>
      Ok (v, with_count (write_bucket t index ((k, v) :: n)) (u32 (m_tableCount t + 1)))
  end.

Definition Remove (t : JitHashTable) (k : Key) : res (bool * JitHashTable) :=
  let* index := GetIndexForKey t k in
  let* pN := read_bucket t index in
  match find_node k pN with
  | Some _ =>
      Ok (true, with_count (write_bucket t index (unlink_chain k pN))
                           (u32 (m_tableCount t - 1)))
  | None => Ok (false, t)
  end.

(** [RemoveAll]: frees every node and the array, back to the empty state. *)
Definition RemoveAll (t : JitHashTable) : JitHashTable := empty_table.

(** [operator[](k)]: [LookupPointer], [assert(p)], then [*p]. *)
Definition operator_index (t : JitHashTable) (k : Key) : res Value :=
  let* p := LookupPointer t k in
  let* _ := assert_ (match p with Some _ => true | None => false end) in
  match p with Some v => Ok v | None => Undefined end.

(** ** Iteration support: [NodeIterator]

    [it_node] is [m_node]: [[]] is [nullptr], [n :: rest] points at [n],
    whose successors along [m_next] are [rest].  A null [m_table] is read
    as the empty array: it only occurs with [m_tableSize = 0], where the
    loops read nothing. *)
Record NodeIterator := mkNodeIterator {
  it_table : list (list Node);
  it_node : list Node;
  it_tableSize : Z;
  it_index : Z
}.

(** [while ((m_index < m_tableSize) && (m_table[m_index] == nullptr)) m_index++;]
    The fuel is the loop bound [m_tableSize - m_index]. *)
Fixpoint skip_empty (tbl : list (list Node)) (size index : Z) (fuel : nat) : Z :=
  match fuel with
  | O => index
  | S fuel' =>
      if (index <? size) && (match nth (Z.to_nat index) tbl [] with [] => true | _ => false end)
      then skip_empty tbl size (index + 1) fuel'
      else index
  end.

(** [m_node = m_table[m_index]] if [m_index < m_tableSize], else [nullptr]. *)
Definition node_at (tbl : list (list Node)) (size index : Z) : list Node :=
  if index <? size then nth (Z.to_nat index) tbl [] else [].

(** [NodeIterator(hash, true)]. *)
Definition NodeIterator_begin (t : JitHashTable) : NodeIterator :=
  let tbl := match m_table t with Some b => b | None => [] end in
  let size := prime (m_tableSizeInfo t) in
  if 0 <? m_tableCount t then
    let index := skip_empty tbl size 0 (Z.to_nat size) in
    mkNodeIterator tbl (node_at tbl size index) size index
  else mkNodeIterator tbl [] size 0.

(** [NodeIterator(hash, false)]: [m_index = m_tableSize], [m_node = nullptr]. *)
Definition NodeIterator_end (t : JitHashTable) : NodeIterator :=
  let tbl := match m_table t with Some b => b | None => [] end in
  let size := prime (m_tableSizeInfo t) in
  mkNodeIterator tbl [] size size.

(** [NodeIterator::Next]. *)
Definition Next (it : NodeIterator) : NodeIterator :=
  let tbl := it_table it in
  let size := it_tableSize it in
  let continue_from index :=
    let index := skip_empty tbl size index (Z.to_nat (size - index)) in
    mkNodeIterator tbl (node_at tbl size index) size index in
  match it_node it with
  | _ :: (_ :: _) as rest => mkNodeIterator tbl rest size (it_index it)
  | [_] => continue_from (it_index it + 1)
  | [] => continue_from (it_index it)
  end.





(** ** Sequences of operations *)

Inductive op :=
| op_Set (k : Key) (v : Value) (kind : SetKind)
| op_LookupPointerOrAdd (k : Key) (defaultValue : Value)
| op_Emplace (k : Key) (v : Value)
| op_Remove (k : Key)
| op_RemoveAll
| op_Reallocate (newTableSize : Z)
| op_Lookup (k : Key).

Definition exec (t : JitHashTable) (o : op) : res JitHashTable :=
  match o with
  | op_Set k v kind => let* r := Set_ t k v kind in Ok (snd r)
  | op_LookupPointerOrAdd k d => let* r := LookupPointerOrAdd t k d in Ok (snd r)
  | op_Emplace k v => let* r := Emplace t k v in Ok (snd r)
  | op_Remove k => let* r := Remove t k in Ok (snd r)
  | op_RemoveAll => Ok (RemoveAll t)
  | op_Reallocate n => Reallocate t (u32 n)
  | op_Lookup k => let* _ := Lookup t k None in Ok t
  end.

Fixpoint run (t : JitHashTable) (ops : list op) : res JitHashTable :=
  match ops with
  | [] => Ok t
  | o :: ops' => let* t' := exec t o in run t' ops'
  end.

(** The contents the spec describes, as a function from keys: the value
    most recently set for each key inserted and not removed since.  Set
    overwrites; LookupPointerOrAdd and Emplace only add an absent key. *)
Definition spec_step (m : Key -> option Value) (o : op) : Key -> option Value :=
  match o with
  | op_Set k v _ => fun k' => if Equals k' k then Some v else m k'
  | op_LookupPointerOrAdd k v | op_Emplace k v =>
      fun k' => if Equals k' k then match m k' with Some w => Some w | None => Some v end
                else m k'
  | op_Remove k => fun k' => if Equals k' k then None else m k'
  | op_RemoveAll => fun _ => None
  | op_Reallocate _ | op_Lookup _ => m
  end.

Definition spec_contents (ops : list op) : Key -> option Value :=
  fold_left spec_step ops (fun _ => None).

(** The nodes reachable from the bucket array, bucket by bucket. *)
Definition entries (t : JitHashTable) : list Node :=
  match m_table t with None => [] | Some b => concat b end.

(** The length of the bucket array, [0] while [m_table] is null. *)
Definition table_size (t : JitHashTable) : Z :=
  match m_table t with None => 0 | Some b => Z.of_nat (length b) end.

(** The bucket [GetIndexForKey] should give once [magicNumberRem] is exact. *)
Definition index_of (p : Z) (k : Key) : Z := u32 (GetHashCode k) mod p.

(** ** Invariant of reachable tables *)

(** Every node of bucket [i] hashes to [i] modulo [p]. *)
Definition bucket_ok (p : Z) (b : list (list Node)) : Prop :=
  forall i c n, nth_error b i = Some c -> In n c -> index_of p (fst n) = Z.of_nat i.

Record Inv (t : JitHashTable) : Prop := {
  inv_shape :
    match m_table t with
    | None => m_tableSizeInfo t = JitPrimeInfo_default /\ m_tableCount t = 0 /\ m_tableMax t = 0
    | Some b =>
        In (m_tableSizeInfo t) jitPrimeInfo
        /\ length b = Z.to_nat (prime (m_tableSizeInfo t))
        /\ bucket_ok (prime (m_tableSizeInfo t)) b
        /\ m_tableMax t = u32 (prime (m_tableSizeInfo t) * s_density_factor_numerator Beh)
                            / s_density_factor_denominator Beh
    end;
  inv_nodup : NoDup (map fst (entries t));
  inv_count : m_tableCount t = u32 (Z.of_nat (length (entries t)))
}.

(** A cursor over [tbl] whose remaining nodes are [l]. *)
Definition iter_wf (it : NodeIterator) (l : list Node) : Prop :=
  it_tableSize it = Z.of_nat (length (it_table it)) /\
  match it_node it with
  | [] => l = []
  | n :: ns =>
      0 <= it_index it < it_tableSize it
      /\ l = (n :: ns) ++ concat (skipn (S (Z.to_nat (it_index it))) (it_table it))
  end.

(** ** Assumptions on the collaborators

    [KeyFuncs::Equals] decides equality of keys, and every entry of the
    prime table has a prime in [unsigned] range whose magic constants make
    [magicNumberRem] exact (its own [assert]). *)
Hypothesis Equals_spec : forall a b, Equals a b = true <-> a = b.
Hypothesis primes_range : forall e, In e jitPrimeInfo -> 0 < prime e < 2 ^ 32.
Hypothesis primes_exact : forall e x, In e jitPrimeInfo -> 0 <= x < 2 ^ 32 ->
  magicNumberRem_value e x = x mod prime e.

(** *** Arithmetic and lists *)

Lemma u32_range : forall z, 0 <= u32 z < 2 ^ 32.
Proof. intro z. unfold u32. apply Z.mod_pos_bound. lia. Qed.

Lemma Equals_true : forall a b, Equals a b = true -> a = b.
Proof. intros a b H. apply Equals_spec. exact H. Qed.

Lemma Equals_false : forall a b, Equals a b = false -> a <> b.
Proof. intros a b H E. apply Equals_spec in E. congruence. Qed.

Lemma Equals_refl : forall a, Equals a a = true.
Proof. intro a. apply Equals_spec. reflexivity. Qed.

Lemma magicNumberRem_ok : forall e x, In e jitPrimeInfo -> 0 <= x < 2 ^ 32 ->
  magicNumberRem e x = Ok (x mod prime e).
Proof.
  intros e x He Hx. unfold magicNumberRem.
  pose proof (primes_range e He) as Hp.
  destruct (Z.eqb_spec (prime e) 0) as [E|E]; [lia|].
  rewrite primes_exact by assumption. rewrite Z.eqb_refl. reflexivity.
Qed.

Lemma index_of_range : forall p k, 0 < p -> 0 <= index_of p k < p.
Proof. intros p k Hp. unfold index_of. apply Z.mod_pos_bound. exact Hp. Qed.

Lemma set_nth_length : forall (A : Type) (l : list A) i x, length (set_nth l i x) = length l.
Proof. intros A l. induction l as [|a l IH]; intros [|i] x; simpl; auto. Qed.

Lemma nth_error_set_nth_same : forall (A : Type) (l : list A) i x,
  (i < length l)%nat -> nth_error (set_nth l i x) i = Some x.
Proof.
  intros A l. induction l as [|a l IH]; intros [|i] x Hi; simpl in *; try lia; auto.
  apply IH. lia.
Qed.

Lemma nth_error_set_nth_other : forall (A : Type) (l : list A) i j x,
  i <> j -> nth_error (set_nth l i x) j = nth_error l j.
Proof.
  intros A l. induction l as [|a l IH]; intros [|i] [|j] x Hij; simpl; try reflexivity;
    try congruence.
  apply IH. congruence.
Qed.

Lemma set_nth_nth_error : forall (A : Type) (l : list A) i x,
  nth_error l i = Some x -> set_nth l i x = l.
Proof.
  intros A l. induction l as [|a l IH]; intros [|i] x H; simpl in *; try discriminate.
  - congruence.
  - f_equal. apply IH. exact H.
Qed.

Lemma concat_set_nth : forall (A : Type) (l : list (list A)) i c x,
  nth_error l i = Some c ->
  Permutation (concat (set_nth l i x)) (x ++ concat (set_nth l i [])).
Proof.
  intros A l. induction l as [|a l IH]; intros [|i] c x H; simpl in *; try discriminate.
  - apply Permutation_refl.
  - rewrite (IH i c x H). apply Permutation_app_swap_app.
Qed.

Lemma concat_nth_error : forall (A : Type) (l : list (list A)) i c,
  nth_error l i = Some c -> Permutation (concat l) (c ++ concat (set_nth l i [])).
Proof.
  intros A l i c H.
  pose proof (concat_set_nth A l i c c H) as P.
  rewrite (set_nth_nth_error _ l i c H) in P. exact P.
Qed.

Lemma In_concat_nth : forall (A : Type) (l : list (list A)) x,
  In x (concat l) <-> exists i c, nth_error l i = Some c /\ In x c.
Proof.
  intros A l x. rewrite in_concat. split.
  - intros [c [Hc Hx]]. destruct (In_nth_error l c Hc) as [i Hi]. eauto.
  - intros [i [c [Hi Hx]]]. exists c. split; [eapply nth_error_In; eauto | exact Hx].
Qed.

Lemma bucket_ok_set_nth : forall p b i c,
  bucket_ok p b ->
  (forall n, In n c -> index_of p (fst n) = Z.of_nat i) ->
  bucket_ok p (set_nth b i c).
Proof.
  intros p b i c Hb Hc j c' n Hj Hn.
  destruct (Nat.eq_dec i j) as [->|Hne].
  - assert (Hlt : (j < length b)%nat).
    { destruct (Nat.lt_ge_cases j (length b)) as [|Hge]; [assumption|].
      exfalso. assert (E : nth_error (set_nth b j c) j = None)
        by (apply nth_error_None; rewrite set_nth_length; exact Hge).
      congruence. }
    rewrite nth_error_set_nth_same in Hj by exact Hlt.
    injection Hj as <-. apply Hc. exact Hn.
  - rewrite nth_error_set_nth_other in Hj by exact Hne. eapply Hb; eauto.
Qed.

(** *** The chain walks *)

Lemma find_node_Some : forall k c n, find_node k c = Some n -> In n c /\ fst n = k.
Proof.
  intros k c. induction c as [|a c IH]; intros n H; simpl in H; [discriminate|].
  destruct (Equals k (fst a)) eqn:E.
  - injection H as <-. split; [left; reflexivity | symmetry; apply Equals_true; exact E].
  - destruct (IH n H). split; [right|]; assumption.
Qed.

Lemma find_node_None : forall k c n, find_node k c = None -> In n c -> fst n <> k.
Proof.
  intros k c. induction c as [|a c IH]; intros n H Hn; simpl in *; [contradiction|].
  destruct (Equals k (fst a)) eqn:E; [discriminate|].
  destruct Hn as [<-|Hn].
  - intro E'. apply (Equals_false _ _ E). symmetry. exact E'.
  - apply IH; assumption.
Qed.

Lemma NoDup_fst_unique : forall (l : list Node) n1 n2,
  NoDup (map fst l) -> In n1 l -> In n2 l -> fst n1 = fst n2 -> n1 = n2.
Proof.
  intros l. induction l as [|a l IH]; intros n1 n2 Hnd H1 H2 Hk; [contradiction|].
  simpl in Hnd. inversion Hnd as [|? ? Hnotin Hnd']; subst.
  destruct H1 as [<-|H1], H2 as [<-|H2]; auto.
  - exfalso. apply Hnotin. rewrite Hk. apply in_map. exact H2.
  - exfalso. apply Hnotin. rewrite <- Hk. apply in_map. exact H1.
Qed.

(** The walk only depends on the nodes carrying key [k]. *)
Lemma find_node_ext : forall k l1 l2,
  NoDup (map fst l2) ->
  (forall n, fst n = k -> (In n l1 <-> In n l2)) ->
  find_node k l1 = find_node k l2.
Proof.
  intros k l1 l2 Hnd Hiff.
  destruct (find_node k l1) as [a|] eqn:E1, (find_node k l2) as [b|] eqn:E2.
  - apply find_node_Some in E1 as [Ha Hka]. apply find_node_Some in E2 as [Hb Hkb].
    f_equal. apply (NoDup_fst_unique l2); auto.
    + apply Hiff; assumption.
    + congruence.
  - apply find_node_Some in E1 as [Ha Hka].
    exfalso. apply (find_node_None k l2 a E2); [apply Hiff|]; assumption.
  - apply find_node_Some in E2 as [Hb Hkb].
    exfalso. apply (find_node_None k l1 b E1); [apply Hiff|]; assumption.
  - reflexivity.
Qed.

Lemma find_node_perm : forall k l1 l2,
  NoDup (map fst l1) -> Permutation l1 l2 -> find_node k l1 = find_node k l2.
Proof.
  intros k l1 l2 Hnd Hp. apply find_node_ext.
  - eapply Permutation_NoDup; [apply Permutation_map; exact Hp | exact Hnd].
  - intros n _. split; apply Permutation_in; [exact Hp | apply Permutation_sym; exact Hp].
Qed.

Lemma overwrite_chain_perm : forall k v c n,
  find_node k c = Some n -> Permutation (overwrite_chain k v c) ((k, v) :: unlink_chain k c).
Proof.
  intros k v c. induction c as [|a c IH]; intros n H; simpl in *; [discriminate|].
  destruct (Equals k (fst a)) eqn:E.
  - apply Equals_true in E. rewrite E. apply Permutation_refl.
  - rewrite (IH n H). apply perm_swap.
Qed.

Lemma unlink_chain_perm : forall k c n,
  find_node k c = Some n -> Permutation c (n :: unlink_chain k c).
Proof.
  intros k c. induction c as [|a c IH]; intros n H; simpl in *; [discriminate|].
  destruct (Equals k (fst a)) eqn:E.
  - injection H as <-. apply Permutation_refl.
  - rewrite (IH n H) at 1. apply perm_swap.
Qed.

Lemma overwrite_chain_keys : forall k v c, map fst (overwrite_chain k v c) = map fst c.
Proof.
  intros k v c. induction c as [|a c IH]; simpl; [reflexivity|].
  destruct (Equals k (fst a)); simpl; [reflexivity | f_equal; exact IH].
Qed.

Lemma find_node_overwrite : forall k v c n,
  find_node k c = Some n -> find_node k (overwrite_chain k v c) = Some (k, v).
Proof.
  intros k v c. induction c as [|a c IH]; intros n H; simpl in *; [discriminate|].
  destruct (Equals k (fst a)) eqn:E; simpl.
  - rewrite E. apply Equals_true in E. rewrite E. reflexivity.
  - rewrite E. eapply IH. exact H.
Qed.

(** *** Reachable tables *)

Lemma Inv_empty : Inv empty_table.
Proof.
  constructor; simpl; auto.
  - constructor.
Qed.

Lemma Inv_Some : forall t b, Inv t -> m_table t = Some b ->
  0 < prime (m_tableSizeInfo t) < 2 ^ 32
  /\ In (m_tableSizeInfo t) jitPrimeInfo
  /\ length b = Z.to_nat (prime (m_tableSizeInfo t))
  /\ bucket_ok (prime (m_tableSizeInfo t)) b
  /\ m_tableMax t = u32 (prime (m_tableSizeInfo t) * s_density_factor_numerator Beh)
                      / s_density_factor_denominator Beh.
Proof.
  intros t b Hi Hb. pose proof (inv_shape t Hi) as Hs. rewrite Hb in Hs.
  destruct Hs as [Hin [Hlen [Hok Hmax]]]. repeat split; auto; apply primes_range; auto.
Qed.

Lemma Inv_None : forall t, Inv t -> m_table t = None ->
  m_tableSizeInfo t = JitPrimeInfo_default /\ m_tableCount t = 0 /\ m_tableMax t = 0.
Proof.
  intros t Hi Hb. pose proof (inv_shape t Hi) as Hs. rewrite Hb in Hs. exact Hs.
Qed.

Lemma GetIndexForKey_ok : forall t b k, Inv t -> m_table t = Some b ->
  GetIndexForKey t k = Ok (index_of (prime (m_tableSizeInfo t)) k).
Proof.
  intros t b k Hi Hb. destruct (Inv_Some t b Hi Hb) as [_ [Hin _]].
  unfold GetIndexForKey, index_of. apply magicNumberRem_ok; [exact Hin | apply u32_range].
Qed.

Lemma bucket_exists : forall t b k, Inv t -> m_table t = Some b ->
  exists c, nth_error b (Z.to_nat (index_of (prime (m_tableSizeInfo t)) k)) = Some c
         /\ read_bucket t (index_of (prime (m_tableSizeInfo t)) k) = Ok c.
Proof.
  intros t b k Hi Hb. destruct (Inv_Some t b Hi Hb) as [Hp [_ [Hlen _]]].
  pose proof (index_of_range (prime (m_tableSizeInfo t)) k (proj1 Hp)) as Hr.
  destruct (nth_error b (Z.to_nat (index_of (prime (m_tableSizeInfo t)) k))) as [c|] eqn:E.
  - exists c. split; [reflexivity|]. unfold read_bucket. rewrite Hb, E. reflexivity.
  - exfalso. apply nth_error_None in E. lia.
Qed.

(** The nodes with key [k] all sit in bucket [index_of p k]. *)
Lemma bucket_of_key : forall t b k c n, Inv t -> m_table t = Some b ->
  nth_error b (Z.to_nat (index_of (prime (m_tableSizeInfo t)) k)) = Some c ->
  fst n = k -> (In n c <-> In n (concat b)).
Proof.
  intros t b k c n Hi Hb Hc Hk. destruct (Inv_Some t b Hi Hb) as [Hp [_ [_ [Hok _]]]].
  split.
  - intro Hn. apply In_concat_nth. eauto.
  - intro Hn. apply In_concat_nth in Hn as [i [c' [Hi' Hn']]].
    pose proof (Hok i c' n Hi' Hn') as E. rewrite Hk in E. rewrite E, Nat2Z.id in Hc.
    rewrite Hi' in Hc. injection Hc as <-. exact Hn'.
Qed.

Lemma FindNode_entries : forall t k, Inv t -> FindNode t k = Ok (find_node k (entries t)).
Proof.
  intros t k Hi. unfold FindNode, entries.
  destruct (m_table t) as [b|] eqn:Hb.
  - destruct (Inv_Some t b Hi Hb) as [Hp _].
    destruct (Z.eqb_spec (prime (m_tableSizeInfo t)) 0) as [E|E]; [lia|].
    rewrite (GetIndexForKey_ok t b k Hi Hb). simpl.
    destruct (bucket_exists t b k Hi Hb) as [c [Hc Hr]]. rewrite Hr. simpl.
    f_equal. apply find_node_ext.
    + pose proof (inv_nodup t Hi) as Hnd. unfold entries in Hnd. rewrite Hb in Hnd. exact Hnd.
    + intros n Hk. eapply bucket_of_key; eauto.
  - destruct (Inv_None t Hi Hb) as [-> _]. reflexivity.
Qed.

Lemma Lookup_entries : forall t k pVal, Inv t ->
  Lookup t k pVal =
    Ok (match find_node k (entries t) with
        | Some n => (true, match pVal with Some _ => Some (snd n) | None => None end)
        | None => (false, pVal)
        end).
Proof.
  intros t k pVal Hi. unfold Lookup. rewrite (FindNode_entries t k Hi). simpl.
  destruct (find_node k (entries t)); reflexivity.
Qed.

(** Under the invariant, membership of a node with key [k] is what the
    walk reports. *)
Lemma find_node_entries_In : forall t k v, Inv t ->
  (In (k, v) (entries t) <-> find_node k (entries t) = Some (k, v)).
Proof.
  intros t k v Hi. split.
  - intro Hin. destruct (find_node k (entries t)) as [n|] eqn:E.
    + apply find_node_Some in E as [Hn Hk]. f_equal.
      apply (NoDup_fst_unique (entries t)); auto. apply (inv_nodup t Hi).
    + exfalso. exact (find_node_None k _ _ E Hin eq_refl).
  - intro E. apply find_node_Some in E as [Hn _]. exact Hn.
Qed.

(** *** Updating one bucket *)

Lemma u32_succ : forall z, u32 (u32 z + 1) = u32 (z + 1).
Proof. intro z. unfold u32. rewrite Zplus_mod_idemp_l. reflexivity. Qed.

Lemma u32_pred : forall z, u32 (u32 z - 1) = u32 (z - 1).
Proof. intro z. unfold u32. rewrite Zminus_mod_idemp_l. reflexivity. Qed.

Lemma entries_write_bucket : forall t b ix c,
  m_table t = Some b ->
  entries (write_bucket t ix c) = concat (set_nth b (Z.to_nat ix) c).
Proof. intros t b ix c Hb. unfold entries, write_bucket. rewrite Hb. reflexivity. Qed.

Lemma write_bucket_fields : forall t ix c,
  m_tableSizeInfo (write_bucket t ix c) = m_tableSizeInfo t
  /\ m_tableCount (write_bucket t ix c) = m_tableCount t
  /\ m_tableMax (write_bucket t ix c) = m_tableMax t.
Proof. intros t ix c. unfold write_bucket. destruct (m_table t); repeat split. Qed.

Lemma bucket_ok_chain : forall p b i c n,
  bucket_ok p b -> nth_error b i = Some c -> In n c -> index_of p (fst n) = Z.of_nat i.
Proof. intros p b i c n Hok Hc Hn. exact (Hok i c n Hc Hn). Qed.

(** Inserting [(k, v)] at the head of its chain when [k] is absent. *)
Lemma insert_new : forall t b k v c,
  Inv t -> m_table t = Some b ->
  nth_error b (Z.to_nat (index_of (prime (m_tableSizeInfo t)) k)) = Some c ->
  find_node k c = None ->
  let t' := with_count (write_bucket t (index_of (prime (m_tableSizeInfo t)) k) ((k, v) :: c))
                       (u32 (m_tableCount t + 1)) in
  Inv t' /\ Permutation (entries t') ((k, v) :: entries t)
  /\ m_tableSizeInfo t' = m_tableSizeInfo t /\ m_tableMax t' = m_tableMax t.
Proof.
  intros t b k v c Hi Hb Hc Hf t'.
  destruct (Inv_Some t b Hi Hb) as [Hp [Hin [Hlen [Hok Hmax]]]].
  set (p := prime (m_tableSizeInfo t)) in *.
  set (i := index_of p k) in *.
  assert (Hi0 : 0 <= i < p) by (apply index_of_range; lia).
  assert (Hent : entries t' = concat (set_nth b (Z.to_nat i) ((k, v) :: c)))
    by (apply entries_write_bucket; exact Hb).
  assert (Hperm : Permutation (entries t') ((k, v) :: entries t)).
  { rewrite Hent. rewrite (concat_set_nth _ b _ c _ Hc). simpl. apply perm_skip.
    apply Permutation_sym. unfold entries. rewrite Hb. apply concat_nth_error. exact Hc. }
  assert (Hfresh : ~ In k (map fst (entries t))).
  { intro Hk. apply in_map_iff in Hk as [n [Hnk Hn]].
    unfold entries in Hn. rewrite Hb in Hn.
    apply (bucket_of_key t b k c n Hi Hb Hc Hnk) in Hn.
    exact (find_node_None k c n Hf Hn Hnk). }
  destruct (write_bucket_fields t i ((k, v) :: c)) as [Wi [_ Wm]].
  split; [|split; [exact Hperm | split; [exact Wi | exact Wm]]].
  constructor.
  - unfold t', with_count, write_bucket. simpl. rewrite Hb. simpl.
    split; [exact Hin|]. split; [|split].
    + rewrite set_nth_length. exact Hlen.
    + apply bucket_ok_set_nth; [exact Hok|].
      intros n [<-|Hn].
      * simpl. rewrite Z2Nat.id by lia. reflexivity.
      * exact (Hok _ c n Hc Hn).
    + exact Hmax.
  - eapply Permutation_NoDup; [apply Permutation_map; apply Permutation_sym; exact Hperm|].
    simpl. constructor; [exact Hfresh | exact (inv_nodup t Hi)].
  - unfold t' at 1, with_count. simpl. rewrite (inv_count t Hi), u32_succ.
    rewrite (Permutation_length Hperm). simpl length. rewrite Nat2Z.inj_succ. reflexivity.
Qed.

(** Replacing the value of the node [n] found for [k]. *)
Lemma overwrite_existing : forall t b k v c n,
  Inv t -> m_table t = Some b ->
  nth_error b (Z.to_nat (index_of (prime (m_tableSizeInfo t)) k)) = Some c ->
  find_node k c = Some n ->
  let t' := write_bucket t (index_of (prime (m_tableSizeInfo t)) k) (overwrite_chain k v c) in
  Inv t' /\ fst n = k
  /\ (exists R, Permutation (entries t) (n :: R) /\ Permutation (entries t') ((k, v) :: R))
  /\ m_tableSizeInfo t' = m_tableSizeInfo t /\ m_tableMax t' = m_tableMax t
  /\ m_tableCount t' = m_tableCount t.
Proof.
  intros t b k v c n Hi Hb Hc Hf t'.
  destruct (Inv_Some t b Hi Hb) as [Hp [Hin [Hlen [Hok Hmax]]]].
  set (p := prime (m_tableSizeInfo t)) in *.
  set (i := index_of p k) in *.
  destruct (find_node_Some k c n Hf) as [Hnc Hnk].
  set (R := unlink_chain k c ++ concat (set_nth b (Z.to_nat i) [])).
  assert (H1 : Permutation (entries t) (n :: R)).
  { unfold entries. rewrite Hb. rewrite (concat_nth_error _ b _ c Hc).
    unfold R. rewrite app_comm_cons. apply Permutation_app_tail.
    apply unlink_chain_perm. exact Hf. }
  assert (H2 : Permutation (entries t') ((k, v) :: R)).
  { unfold t'. rewrite (entries_write_bucket t b _ _ Hb).
    rewrite (concat_set_nth _ b _ c _ Hc). unfold R. rewrite app_comm_cons.
    apply Permutation_app_tail. eapply overwrite_chain_perm. exact Hf. }
  assert (Hlen' : length (entries t') = length (entries t)).
  { rewrite (Permutation_length H1), (Permutation_length H2). reflexivity. }
  split; [|split; [exact Hnk | split; [exists R; split; assumption | repeat split]]].
  constructor.
  - unfold t', write_bucket. rewrite Hb. simpl.
    split; [exact Hin|]. split; [|split].
    + rewrite set_nth_length. exact Hlen.
    + apply bucket_ok_set_nth; [exact Hok|].
      intros x Hx. assert (Hk : In (fst x) (map fst c)).
      { rewrite <- (overwrite_chain_keys k v c). apply in_map. exact Hx. }
      apply in_map_iff in Hk as [y [Hy Hyc]]. rewrite <- Hy. exact (Hok _ c y Hc Hyc).
    + exact Hmax.
  - eapply Permutation_NoDup; [apply Permutation_map; apply Permutation_sym; exact H2|].
    pose proof (Permutation_NoDup (Permutation_map fst H1) (inv_nodup t Hi)) as Hnd.
    simpl in Hnd |- *. rewrite <- Hnk. exact Hnd.
  - unfold t', write_bucket. rewrite Hb. simpl. rewrite (inv_count t Hi).
    rewrite <- Hlen'. unfold t', write_bucket. rewrite Hb. reflexivity.
  - unfold t', write_bucket. rewrite Hb. reflexivity.
  - unfold t', write_bucket. rewrite Hb. reflexivity.
  - unfold t', write_bucket. rewrite Hb. reflexivity.
Qed.

(** Unlinking the node [n] found for [k]. *)
Lemma remove_existing : forall t b k c n,
  Inv t -> m_table t = Some b ->
  nth_error b (Z.to_nat (index_of (prime (m_tableSizeInfo t)) k)) = Some c ->
  find_node k c = Some n ->
  let t' := with_count (write_bucket t (index_of (prime (m_tableSizeInfo t)) k) (unlink_chain k c))
                       (u32 (m_tableCount t - 1)) in
  Inv t' /\ fst n = k /\ Permutation (entries t) (n :: entries t')
  /\ m_tableSizeInfo t' = m_tableSizeInfo t /\ m_tableMax t' = m_tableMax t.
Proof.
  intros t b k c n Hi Hb Hc Hf t'.
  destruct (Inv_Some t b Hi Hb) as [Hp [Hin [Hlen [Hok Hmax]]]].
  set (p := prime (m_tableSizeInfo t)) in *.
  set (i := index_of p k) in *.
  destruct (find_node_Some k c n Hf) as [Hnc Hnk].
  assert (Hent : entries t' = concat (set_nth b (Z.to_nat i) (unlink_chain k c)))
    by (apply entries_write_bucket; exact Hb).
  assert (H1 : Permutation (entries t) (n :: entries t')).
  { rewrite Hent. unfold entries. rewrite Hb. rewrite (concat_nth_error _ b _ c Hc).
    rewrite (concat_set_nth _ b _ c (unlink_chain k c) Hc). rewrite app_comm_cons.
    apply Permutation_app_tail. apply unlink_chain_perm. exact Hf. }
  destruct (write_bucket_fields t i (unlink_chain k c)) as [Wi [_ Wm]].
  split; [|split; [exact Hnk | split; [exact H1 | split; [exact Wi | exact Wm]]]].
  constructor.
  - unfold t', with_count, write_bucket. simpl. rewrite Hb. simpl.
    split; [exact Hin|]. split; [|split].
    + rewrite set_nth_length. exact Hlen.
    + apply bucket_ok_set_nth; [exact Hok|].
      intros x Hx. apply (Hok _ c x Hc).
      apply (Permutation_in _ (Permutation_sym (unlink_chain_perm k c n Hf))). right. exact Hx.
    + exact Hmax.
  - pose proof (Permutation_NoDup (Permutation_map fst H1) (inv_nodup t Hi)) as Hnd.
    simpl in Hnd. inversion Hnd; assumption.
  - unfold t' at 1, with_count. simpl. rewrite (inv_count t Hi), u32_pred.
    rewrite (Permutation_length H1). simpl length. rewrite Nat2Z.inj_succ.
    f_equal. lia.
Qed.

(** *** Rehashing *)

Lemma NextPrime_from_spec : forall l n e,
  NextPrime_from l n = Ok e -> In e l /\ n <= prime e.
Proof.
  intros l. induction l as [|a l IH]; intros n e H; simpl in H; [discriminate|].
  destruct (Z.leb_spec n (prime a)) as [Hle|Hgt].
  - injection H as <-. split; [left; reflexivity | exact Hle].
  - destruct (IH n e H) as [Hin Hle]. split; [right; exact Hin | exact Hle].
Qed.

Lemma repeat_nil_bucket_ok : forall p m, bucket_ok p (repeat [] m).
Proof.
  intros p m i c n Hi Hn. apply nth_error_In, repeat_spec in Hi. subst c. contradiction.
Qed.

Lemma concat_repeat_nil : forall m, concat (repeat ([] : list Node) m) = [].
Proof. intro m. induction m as [|m IH]; simpl; auto. Qed.

Lemma map_nth_seq_full : forall (A : Type) (l : list A) d,
  map (fun i => nth i l d) (seq 0 (length l)) = l.
Proof.
  intros A l d. induction l as [|a l IH]; simpl; [reflexivity|].
  f_equal. rewrite <- seq_shift, map_map. simpl. exact IH.
Qed.

Lemma relink_chain_ok : forall e c nt,
  In e jitPrimeInfo -> length nt = Z.to_nat (prime e) -> bucket_ok (prime e) nt ->
  exists nt', relink_chain e c nt = Ok nt' /\ length nt' = length nt
           /\ bucket_ok (prime e) nt' /\ Permutation (concat nt') (c ++ concat nt).
Proof.
  intros e c. induction c as [|a c IH]; intros nt He Hlen Hok.
  - exists nt. simpl. repeat split; auto; apply Permutation_refl.
  - simpl. rewrite magicNumberRem_ok by (auto; apply u32_range). simpl.
    pose proof (primes_range e He) as Hp.
    assert (Hj : 0 <= u32 (GetHashCode (fst a)) mod prime e < prime e)
      by (apply Z.mod_pos_bound; lia).
    destruct (nth_error nt (Z.to_nat (u32 (GetHashCode (fst a)) mod prime e))) as [hd|] eqn:Ehd.
    2: { exfalso. apply nth_error_None in Ehd. lia. }
    destruct (IH (set_nth nt (Z.to_nat (u32 (GetHashCode (fst a)) mod prime e)) (a :: hd)))
      as [nt' [H1 [H2 [H3 H4]]]]; auto.
    + rewrite set_nth_length. exact Hlen.
    + apply bucket_ok_set_nth; [exact Hok|]. intros n [<-|Hn].
      * unfold index_of. rewrite Z2Nat.id; lia.
      * exact (Hok _ hd n Ehd Hn).
    + exists nt'. split; [exact H1|]. split; [rewrite H2, set_nth_length; reflexivity|].
      split; [exact H3|].
      rewrite H4. rewrite (concat_set_nth _ nt _ hd (a :: hd) Ehd).
      pose proof (concat_nth_error _ nt _ hd Ehd) as Hc.
      apply Permutation_trans with (a :: c ++ hd ++ concat (set_nth nt
              (Z.to_nat (u32 (GetHashCode (fst a)) mod prime e)) [])).
      * apply Permutation_sym. apply Permutation_middle.
      * simpl. apply perm_skip. apply Permutation_app_head. apply Permutation_sym. exact Hc.
Qed.

Lemma move_buckets_ok : forall t e idx nt, Inv t -> In e jitPrimeInfo ->
  (forall i, In i idx -> (i < Z.to_nat (prime (m_tableSizeInfo t)))%nat) ->
  length nt = Z.to_nat (prime e) -> bucket_ok (prime e) nt ->
  exists nt', move_buckets t e idx nt = Ok nt' /\ length nt' = length nt
    /\ bucket_ok (prime e) nt'
    /\ Permutation (concat nt')
         (concat (map (fun i => nth i (match m_table t with Some b => b | None => [] end) [])
                      idx) ++ concat nt).
Proof.
  intros t e idx. induction idx as [|i idx IH]; intros nt Hi He Hidx Hlen Hok.
  - exists nt. simpl. repeat split; auto; apply Permutation_refl.
  - simpl. assert (Hlt := Hidx i (or_introl eq_refl)).
    destruct (m_table t) as [b|] eqn:Hb.
    2: { destruct (Inv_None t Hi Hb) as [Hd _]. rewrite Hd in Hlt. simpl in Hlt. lia. }
    destruct (Inv_Some t b Hi Hb) as [Hp [_ [Hlenb _]]].
    destruct (nth_error b i) as [c|] eqn:Ec.
    2: { exfalso. apply nth_error_None in Ec. lia. }
    assert (Hr : read_bucket t (Z.of_nat i) = Ok c)
      by (unfold read_bucket; rewrite Hb, Nat2Z.id, Ec; reflexivity).
    rewrite Hr. simpl.
    destruct (relink_chain_ok e c nt He Hlen Hok) as [nt1 [R1 [R2 [R3 R4]]]].
    rewrite R1. simpl.
    destruct (IH nt1 Hi He (fun j Hj => Hidx j (or_intror Hj)) ltac:(lia) R3)
      as [nt' [M1 [M2 [M3 M4]]]].
    exists nt'. split; [exact M1|]. split; [lia|]. split; [exact M3|].
    rewrite M4, R4. rewrite (nth_error_nth b i [] Ec).
    rewrite !app_assoc. apply Permutation_app_tail. apply Permutation_app_comm.
Qed.

Lemma Reallocate_ok : forall t n e, Inv t ->
  u32 (m_tableCount t * s_density_factor_denominator Beh) / s_density_factor_numerator Beh <= n ->
  NextPrime n = Ok e ->
  exists t', Reallocate t n = Ok t' /\ Inv t' /\ Permutation (entries t') (entries t)
    /\ m_tableSizeInfo t' = e /\ m_tableCount t' = m_tableCount t
    /\ m_tableMax t' = u32 (prime e * s_density_factor_numerator Beh)
                       / s_density_factor_denominator Beh.
Proof.
  intros t n e Hi Hn He. unfold Reallocate, assert_.
  rewrite (proj2 (Z.leb_le _ _) Hn). simpl. rewrite He. simpl.
  destruct (NextPrime_from_spec _ _ _ He) as [Hin Hle].
  destruct (move_buckets_ok t e (seq 0 (Z.to_nat (prime (m_tableSizeInfo t))))
              (repeat [] (Z.to_nat (prime e))) Hi Hin) as [nt' [M1 [M2 [M3 M4]]]].
  - intros i Hi'. apply in_seq in Hi'. lia.
  - apply repeat_length.
  - apply repeat_nil_bucket_ok.
  - rewrite M1. simpl.
    assert (Hperm : Permutation (concat nt') (entries t)).
    { rewrite M4, concat_repeat_nil, app_nil_r. unfold entries.
      destruct (m_table t) as [b|] eqn:Hb.
      - destruct (Inv_Some t b Hi Hb) as [_ [_ [Hlenb _]]]. rewrite <- Hlenb.
        rewrite map_nth_seq_full. apply Permutation_refl.
      - destruct (Inv_None t Hi Hb) as [-> _]. simpl. apply Permutation_refl. }
    eexists. split; [reflexivity|].
    split; [|split; [exact Hperm | repeat split]].
    constructor; simpl.
    + split; [exact Hin|]. split; [rewrite M2; apply repeat_length|]. split; [exact M3|].
      reflexivity.
    + unfold entries at 1. simpl.
      eapply Permutation_NoDup; [apply Permutation_map, Permutation_sym, Hperm|].
      apply (inv_nodup t Hi).
    + rewrite (inv_count t Hi). unfold entries at 2. simpl.
      rewrite (Permutation_length Hperm). reflexivity.
Qed.

Lemma Reallocate_inv : forall t n t', Inv t -> Reallocate t n = Ok t' ->
  Inv t' /\ Permutation (entries t') (entries t) /\ m_tableCount t' = m_tableCount t
  /\ NextPrime n = Ok (m_tableSizeInfo t')
  /\ m_tableMax t' = u32 (prime (m_tableSizeInfo t') * s_density_factor_numerator Beh)
                     / s_density_factor_denominator Beh.
Proof.
  intros t n t' Hi H.
  destruct (Z.leb_spec (u32 (m_tableCount t * s_density_factor_denominator Beh)
                         / s_density_factor_numerator Beh) n) as [Hn|Hn].
  2: { unfold Reallocate, assert_ in H. rewrite (proj2 (Z.leb_gt _ _) Hn) in H. discriminate. }
  destruct (NextPrime n) as [e| | |] eqn:He.
  2-4: unfold Reallocate, assert_ in H; rewrite (proj2 (Z.leb_le _ _) Hn) in H;
       simpl in H; rewrite He in H; discriminate.
  destruct (Reallocate_ok t n e Hi Hn He) as [t1 [R1 [R2 [R3 [R4 [R5 R6]]]]]].
  rewrite R1 in H. injection H as <-. subst e. auto.
Qed.

Lemma Grow_inv : forall t t', Inv t -> Grow t = Ok t' ->
  Inv t' /\ Permutation (entries t') (entries t) /\ m_tableCount t' = m_tableCount t
  /\ NextPrime (GrowSize (m_tableCount t)) = Ok (m_tableSizeInfo t').
Proof.
  intros t t' Hi H. unfold Grow in H.
  destruct (GrowSize (m_tableCount t) <? m_tableCount t); [discriminate|].
  destruct (Reallocate_inv t _ t' Hi H) as [R1 [R2 [R3 [R4 _]]]]. auto.
Qed.

Lemma CheckGrowth_inv : forall t t', Inv t -> CheckGrowth t = Ok t' ->
  Inv t' /\ Permutation (entries t') (entries t) /\ m_tableCount t' = m_tableCount t
  /\ exists b, m_table t' = Some b.
Proof.
  intros t t' Hi H. unfold CheckGrowth in H.
  destruct (needs_growth t) eqn:Hg.
  - destruct (Grow_inv t t' Hi H) as [G1 [G2 [G3 G4]]].
    split; [exact G1|]. split; [exact G2|]. split; [exact G3|].
    destruct (NextPrime_from_spec _ _ _ G4) as [Hin _].
    pose proof (primes_range _ Hin) as Hp.
    destruct (m_table t') as [b|] eqn:Hb; [exists b; reflexivity|].
    destruct (Inv_None t' G1 Hb) as [Hd _]. rewrite Hd in Hp. simpl in Hp. lia.
  - injection H as <-. split; [exact Hi|]. split; [apply Permutation_refl|].
    split; [reflexivity|].
    destruct (m_table t) as [b|] eqn:Hb; [exists b; reflexivity|].
    destruct (Inv_None t Hi Hb) as [_ [Hc Hm]]. unfold needs_growth in Hg.
    rewrite Hc, Hm in Hg. discriminate.
Qed.

(** *** The operations on reachable tables *)

Lemma perm_In_iff : forall (l l' : list Node), Permutation l l' -> forall x, In x l <-> In x l'.
Proof.
  intros l l' P x. split; apply Permutation_in; [exact P | apply Permutation_sym; exact P].
Qed.

Lemma replace_membership : forall (L L' R : list Node) (n : Node) (k : Key) (v : Value),
  NoDup (map fst L) -> fst n = k ->
  Permutation L (n :: R) -> Permutation L' ((k, v) :: R) ->
  forall x, In x L' <-> x = (k, v) \/ (fst x <> k /\ In x L).
Proof.
  intros L L' R n k v Hnd Hk P1 P2 x.
  pose proof (Permutation_NoDup (Permutation_map fst P1) Hnd) as Hnd'.
  simpl in Hnd'. inversion Hnd' as [|? ? Hnotin _]; subst.
  rewrite (perm_In_iff _ _ P2 x), (perm_In_iff _ _ P1 x). simpl. split.
  - intros [<-|Hx]; [left; reflexivity|]. right. split; [|right; exact Hx].
    intro E. apply Hnotin. rewrite <- E. apply in_map. exact Hx.
  - intros [->|[Hx [<-|Hx']]]; [left; reflexivity | contradiction | right; exact Hx'].
Qed.

(** With [k] absent from the bucket it hashes to, no node of the table
    carries [k]. *)
Lemma absent_key : forall t b k c x, Inv t -> m_table t = Some b ->
  nth_error b (Z.to_nat (index_of (prime (m_tableSizeInfo t)) k)) = Some c ->
  find_node k c = None -> In x (entries t) -> fst x <> k.
Proof.
  intros t b k c x Hi Hb Hc Hf Hx Hk. unfold entries in Hx. rewrite Hb in Hx.
  apply (bucket_of_key t b k c x Hi Hb Hc Hk) in Hx. exact (find_node_None k c x Hf Hx Hk).
Qed.

Lemma present_key : forall t b k c n, Inv t -> m_table t = Some b ->
  nth_error b (Z.to_nat (index_of (prime (m_tableSizeInfo t)) k)) = Some c ->
  find_node k c = Some n -> In n (entries t) /\ fst n = k.
Proof.
  intros t b k c n Hi Hb Hc Hf. destruct (find_node_Some k c n Hf) as [Hn Hk].
  split; [|exact Hk]. unfold entries. rewrite Hb.
  apply (bucket_of_key t b k c n Hi Hb Hc Hk). exact Hn.
Qed.

Lemma Set_inv : forall t k v kind r t', Inv t -> Set_ t k v kind = Ok (r, t') ->
  Inv t' /\ (r = true <-> exists v0, In (k, v0) (entries t))
  /\ (forall x, In x (entries t') <-> x = (k, v) \/ (fst x <> k /\ In x (entries t))).
Proof.
  intros t k v kind r t' Hi H. unfold Set_ in H.
  destruct (CheckGrowth t) as [t1| | |] eqn:Hg; try discriminate. simpl in H.
  destruct (CheckGrowth_inv t t1 Hi Hg) as [G1 [G2 [G3 [b Hb]]]].
  destruct (Inv_Some t1 b G1 Hb) as [Hp _].
  destruct (Z.eqb_spec (prime (m_tableSizeInfo t1)) 0) as [E|E]; [lia|]. simpl in H.
  rewrite (GetIndexForKey_ok t1 b k G1 Hb) in H. simpl in H.
  destruct (bucket_exists t1 b k G1 Hb) as [c [Hc Hr]]. rewrite Hr in H. simpl in H.
  pose proof (perm_In_iff _ _ G2) as Hmem.
  destruct (find_node k c) as [n|] eqn:Hf.
  - destruct kind; simpl in H; [discriminate|]. injection H as <- <-.
    destruct (overwrite_existing t1 b k v c n G1 Hb Hc Hf) as [O1 [Onk [[R [P1 P2]] _]]].
    destruct (present_key t1 b k c n G1 Hb Hc Hf) as [Hn _].
    split; [exact O1|]. split.
    + split; [intros _|reflexivity]. exists (snd n). apply Hmem.
      destruct n as [kn vn]. simpl in Onk. subst kn. exact Hn.
    + intro x. rewrite (replace_membership _ _ R n k v (inv_nodup t1 G1) Onk P1 P2 x).
      rewrite Hmem. reflexivity.
  - injection H as <- <-.
    destruct (insert_new t1 b k v c G1 Hb Hc Hf) as [I1 [I2 _]].
    split; [exact I1|]. split.
    + split; [discriminate|]. intros [v0 Hv0]. apply Hmem in Hv0.
      exfalso. exact (absent_key t1 b k c _ G1 Hb Hc Hf Hv0 eq_refl).
    + intro x. rewrite (perm_In_iff _ _ I2 x). simpl. rewrite <- Hmem. split.
      * intros [<-|Hx]; [left; reflexivity | right; split; [|exact Hx]].
        exact (absent_key t1 b k c x G1 Hb Hc Hf Hx).
      * intros [<-|[_ Hx]]; [left; reflexivity | right; exact Hx].
Qed.

Lemma Emplace_LookupPointerOrAdd : forall t k v, Emplace t k v = LookupPointerOrAdd t k v.
Proof. reflexivity. Qed.

Lemma LookupPointerOrAdd_inv : forall t k d r t', Inv t ->
  LookupPointerOrAdd t k d = Ok (r, t') ->
  Inv t'
  /\ ((exists v0, In (k, v0) (entries t)) ->
      In (k, r) (entries t) /\ forall x, In x (entries t') <-> In x (entries t))
  /\ ((forall v0, ~ In (k, v0) (entries t)) ->
      r = d /\ forall x, In x (entries t') <-> x = (k, d) \/ In x (entries t)).
Proof.
  intros t k d r t' Hi H. unfold LookupPointerOrAdd in H.
  destruct (CheckGrowth t) as [t1| | |] eqn:Hg; try discriminate. simpl in H.
  destruct (CheckGrowth_inv t t1 Hi Hg) as [G1 [G2 [G3 [b Hb]]]].
  destruct (Inv_Some t1 b G1 Hb) as [Hp _].
  destruct (Z.eqb_spec (prime (m_tableSizeInfo t1)) 0) as [E|E]; [lia|]. simpl in H.
  rewrite (GetIndexForKey_ok t1 b k G1 Hb) in H. simpl in H.
  destruct (bucket_exists t1 b k G1 Hb) as [c [Hc Hr]]. rewrite Hr in H. simpl in H.
  pose proof (perm_In_iff _ _ G2) as Hmem.
  destruct (find_node k c) as [n|] eqn:Hf.
  - injection H as <- <-.
    destruct (present_key t1 b k c n G1 Hb Hc Hf) as [Hn Hnk].
    split; [exact G1|]. split.
    + intros _. split; [|exact Hmem]. apply Hmem.
      destruct n as [kn vn]. simpl in Hnk. subst kn. exact Hn.
    + intros Hnone. exfalso. apply (Hnone (snd n)). apply Hmem.
      destruct n as [kn vn]. simpl in Hnk. subst kn. exact Hn.
  - injection H as <- <-.
    destruct (insert_new t1 b k d c G1 Hb Hc Hf) as [I1 [I2 _]].
    split; [exact I1|]. split.
    + intros [v0 Hv0]. apply Hmem in Hv0.
      exfalso. exact (absent_key t1 b k c _ G1 Hb Hc Hf Hv0 eq_refl).
    + intros _. split; [reflexivity|]. intro x. rewrite (perm_In_iff _ _ I2 x). simpl.
      rewrite Hmem. split; intros [->|Hx]; auto.
Qed.

Lemma Remove_inv : forall t k r t', Inv t -> Remove t k = Ok (r, t') ->
  Inv t' /\ (r = true <-> exists v0, In (k, v0) (entries t))
  /\ (forall x, In x (entries t') <-> fst x <> k /\ In x (entries t))
  /\ (r = false -> t' = t).
Proof.
  intros t k r t' Hi H. unfold Remove in H.
  destruct (m_table t) as [b|] eqn:Hb.
  2: { destruct (Inv_None t Hi Hb) as [Hd _]. unfold GetIndexForKey in H.
       rewrite Hd in H. discriminate. }
  rewrite (GetIndexForKey_ok t b k Hi Hb) in H. simpl in H.
  destruct (bucket_exists t b k Hi Hb) as [c [Hc Hr]]. rewrite Hr in H. simpl in H.
  destruct (find_node k c) as [n|] eqn:Hf.
  - injection H as <- <-.
    destruct (remove_existing t b k c n Hi Hb Hc Hf) as [R1 [Rnk [P _]]].
    destruct (present_key t b k c n Hi Hb Hc Hf) as [Hn _].
    split; [exact R1|]. split.
    + split; [intros _|reflexivity]. exists (snd n).
      destruct n as [kn vn]. simpl in Rnk. subst kn. exact Hn.
    + split; [|discriminate]. intro x.
      pose proof (Permutation_NoDup (Permutation_map fst P) (inv_nodup t Hi)) as Hnd.
      simpl in Hnd. inversion Hnd as [|? ? Hnotin _]; subst.
      rewrite (perm_In_iff _ _ P x). simpl. split.
      * intro Hx. split; [|right; exact Hx]. intro E. apply Hnotin.
        apply in_map_iff. exists x. split; [exact E | exact Hx].
      * intros [Hk [<-|Hx]]; [contradiction | exact Hx].
  - injection H as <- <-. split; [exact Hi|]. split.
    + split; [discriminate|]. intros [v0 Hv0].
      exfalso. exact (absent_key t b k c _ Hi Hb Hc Hf Hv0 eq_refl).
    + split; [|reflexivity]. intro x. split; [|tauto]. intro Hx. split; [|exact Hx].
      exact (absent_key t b k c x Hi Hb Hc Hf Hx).
Qed.

Lemma key_dec : forall (a b : Key), {a = b} + {a <> b}.
Proof.
  intros a b. destruct (Equals a b) eqn:E.
  - left. apply Equals_true. exact E.
  - right. apply Equals_false. exact E.
Qed.

Lemma exec_inv : forall t o t' (m : Key -> option Value), Inv t ->
  (forall k v, In (k, v) (entries t) <-> m k = Some v) ->
  exec t o = Ok t' ->
  Inv t' /\ (forall k v, In (k, v) (entries t') <-> spec_step m o k = Some v).
Proof.
  intros t o t' m Hi Habs H.
  destruct o as [k v kind|k d|k d|k| |n|k]; simpl in H.
  - destruct (Set_ t k v kind) as [[r t1]| | |] eqn:E; try discriminate. injection H as <-.
    destruct (Set_inv t k v kind r t1 Hi E) as [S1 [_ S3]].
    split; [exact S1|]. intros k' v'. rewrite S3. simpl.
    destruct (Equals k' k) eqn:Ek.
    + apply Equals_true in Ek. subst k'. split.
      * intros [E'|[Hne _]]; [injection E' as ->; reflexivity | contradiction].
      * intro E'. injection E' as ->. left. reflexivity.
    + apply Equals_false in Ek. rewrite <- Habs. split.
      * intros [E'|[_ Hx]]; [injection E' as -> _; contradiction | exact Hx].
      * intro Hx. right. split; [exact Ek | exact Hx].
  - destruct (LookupPointerOrAdd t k d) as [[r t1]| | |] eqn:E; try discriminate.
    injection H as <-.
    destruct (LookupPointerOrAdd_inv t k d r t1 Hi E) as [L1 [L2 L3]].
    split; [exact L1|]. intros k' v'. simpl.
    destruct (m k) as [w|] eqn:Emk.
    + assert (Hw : In (k, w) (entries t)) by (apply Habs; exact Emk).
      destruct (L2 (ex_intro _ w Hw)) as [_ Hmem]. rewrite Hmem, Habs.
      destruct (Equals k' k) eqn:Ek; [|reflexivity].
      apply Equals_true in Ek. subst k'. rewrite Emk. reflexivity.
    + assert (Hn : forall v0, ~ In (k, v0) (entries t))
        by (intros v0 Hv0; apply Habs in Hv0; congruence).
      destruct (L3 Hn) as [_ Hmem]. rewrite Hmem.
      destruct (Equals k' k) eqn:Ek.
      * apply Equals_true in Ek. subst k'. rewrite Emk. split.
        -- intros [E'|Hx]; [injection E' as ->; reflexivity | exfalso; exact (Hn v' Hx)].
        -- intro E'. injection E' as ->. left. reflexivity.
      * apply Equals_false in Ek. rewrite Habs. split.
        -- intros [E'|Hx]; [injection E' as -> _; contradiction | exact Hx].
        -- intro Hx. right. exact Hx.
  - rewrite Emplace_LookupPointerOrAdd in H.
    destruct (LookupPointerOrAdd t k d) as [[r t1]| | |] eqn:E; try discriminate.
    injection H as <-.
    destruct (LookupPointerOrAdd_inv t k d r t1 Hi E) as [L1 [L2 L3]].
    split; [exact L1|]. intros k' v'. simpl.
    destruct (m k) as [w|] eqn:Emk.
    + assert (Hw : In (k, w) (entries t)) by (apply Habs; exact Emk).
      destruct (L2 (ex_intro _ w Hw)) as [_ Hmem]. rewrite Hmem, Habs.
      destruct (Equals k' k) eqn:Ek; [|reflexivity].
      apply Equals_true in Ek. subst k'. rewrite Emk. reflexivity.
    + assert (Hn : forall v0, ~ In (k, v0) (entries t))
        by (intros v0 Hv0; apply Habs in Hv0; congruence).
      destruct (L3 Hn) as [_ Hmem]. rewrite Hmem.
      destruct (Equals k' k) eqn:Ek.
      * apply Equals_true in Ek. subst k'. rewrite Emk. split.
        -- intros [E'|Hx]; [injection E' as ->; reflexivity | exfalso; exact (Hn v' Hx)].
        -- intro E'. injection E' as ->. left. reflexivity.
      * apply Equals_false in Ek. rewrite Habs. split.
        -- intros [E'|Hx]; [injection E' as -> _; contradiction | exact Hx].
        -- intro Hx. right. exact Hx.
  - destruct (Remove t k) as [[r t1]| | |] eqn:E; try discriminate. injection H as <-.
    destruct (Remove_inv t k r t1 Hi E) as [R1 [_ [R3 _]]].
    split; [exact R1|]. intros k' v'. rewrite R3. simpl.
    destruct (Equals k' k) eqn:Ek.
    + apply Equals_true in Ek. subst k'. split; [intros [Hne _]; contradiction | discriminate].
    + apply Equals_false in Ek. rewrite <- Habs. tauto.
  - injection H as <-. split; [exact Inv_empty|]. intros k' v'. simpl.
    split; [contradiction | discriminate].
  - destruct (Reallocate_inv t (u32 n) t' Hi H) as [R1 [R2 _]].
    split; [exact R1|]. intros k' v'. simpl. rewrite <- Habs. symmetry. apply perm_In_iff.
    apply Permutation_sym. exact R2.
  - rewrite (Lookup_entries t k None Hi) in H. simpl in H. injection H as <-.
    split; [exact Hi | exact Habs].
Qed.

Lemma exec_Inv : forall t o t', Inv t -> exec t o = Ok t' -> Inv t'.
Proof.
  intros t o t' Hi H.
  refine (proj1 (exec_inv t o t' (fun k => option_map snd (find_node k (entries t))) Hi _ H)).
  intros k v. rewrite (find_node_entries_In t k v Hi). split.
  - intros ->. reflexivity.
  - destruct (find_node k (entries t)) as [n|] eqn:E; simpl; [|discriminate].
    intro X. injection X as <-. apply find_node_Some in E as [_ Hk].
    destruct n as [kn vn]. simpl in Hk. subst kn. reflexivity.
Qed.

Lemma run_inv : forall ops t t' (m : Key -> option Value), Inv t ->
  (forall k v, In (k, v) (entries t) <-> m k = Some v) ->
  run t ops = Ok t' ->
  Inv t' /\ (forall k v, In (k, v) (entries t') <-> fold_left spec_step ops m k = Some v).
Proof.
  intros ops. induction ops as [|o ops IH]; intros t t' m Hi Habs H; simpl in H.
  - injection H as <-. split; assumption.
  - destruct (exec t o) as [t1| | |] eqn:E; try discriminate. simpl in H.
    destruct (exec_inv t o t1 m Hi Habs E) as [E1 E2].
    exact (IH t1 t' (spec_step m o) E1 E2 H).
Qed.

Lemma run_empty_inv : forall ops t, run empty_table ops = Ok t ->
  Inv t /\ (forall k v, In (k, v) (entries t) <-> spec_contents ops k = Some v).
Proof.
  intros ops t H. apply (run_inv ops empty_table t (fun _ => None) Inv_empty); [|exact H].
  intros k v. simpl. split; [contradiction | discriminate].
Qed.

(** *** Iteration *)

Lemma concat_skipn_cons : forall (tbl : list (list Node)) i,
  (i < length tbl)%nat ->
  concat (skipn i tbl) = nth i tbl [] ++ concat (skipn (S i) tbl).
Proof.
  intros tbl. induction tbl as [|c tbl IH]; intros i Hi; simpl in Hi; [lia|].
  destruct i as [|i]; [reflexivity|]. simpl. apply IH. lia.
Qed.

Lemma skip_empty_spec : forall tbl size fuel index,
  size = Z.of_nat (length tbl) -> 0 <= index <= size -> Z.of_nat fuel = size - index ->
  let j := skip_empty tbl size index fuel in
  index <= j <= size
  /\ concat (skipn (Z.to_nat index) tbl) = concat (skipn (Z.to_nat j) tbl)
  /\ (j < size -> nth (Z.to_nat j) tbl [] <> []).
Proof.
  intros tbl size fuel. induction fuel as [|fuel IH]; intros index Hs Hi Hf j; simpl in j.
  - subst j. repeat split; try lia; try (intro; lia).
  - subst j. destruct (Z.ltb_spec index size) as [Hl|Hl]; simpl.
    + destruct (nth (Z.to_nat index) tbl []) as [|n ns] eqn:E.
      * destruct (IH (index + 1) Hs ltac:(lia) ltac:(lia)) as [A [B C]].
        split; [lia|]. split; [|exact C].
        rewrite <- B. rewrite (concat_skipn_cons tbl (Z.to_nat index)) by lia.
        rewrite E. simpl. replace (Z.to_nat (index + 1)) with (S (Z.to_nat index)) by lia.
        reflexivity.
      * repeat split; try lia. intros _. rewrite E. discriminate.
    + repeat split; try lia; try (intro; lia).
Qed.

Lemma continue_wf : forall tbl size index,
  size = Z.of_nat (length tbl) -> 0 <= index <= size ->
  let j := skip_empty tbl size index (Z.to_nat (size - index)) in
  iter_wf (mkNodeIterator tbl (node_at tbl size j) size j) (concat (skipn (Z.to_nat index) tbl)).
Proof.
  intros tbl size index Hs Hi j.
  destruct (skip_empty_spec tbl size (Z.to_nat (size - index)) index Hs Hi ltac:(lia))
    as [A [B C]].
  fold j in A, B, C.
  unfold iter_wf. simpl. split; [exact Hs|]. rewrite B. unfold node_at.
  destruct (Z.ltb_spec j size) as [Hl|Hl].
  - specialize (C Hl). destruct (nth (Z.to_nat j) tbl []) as [|n ns] eqn:E; [contradiction|].
    split; [lia|]. rewrite (concat_skipn_cons tbl (Z.to_nat j)) by lia. rewrite E. reflexivity.
  - assert (j = size) by lia. subst j. rewrite H, Hs, Nat2Z.id, skipn_all. reflexivity.
Qed.




(** *** Insertions that succeed *)

Lemma NextPrime_from_exists : forall l n, (exists e, In e l /\ n <= prime e) ->
  exists e, NextPrime_from l n = Ok e.
Proof.
  intros l. induction l as [|a l IH]; intros n [e [He Hn]]; [contradiction|]. simpl.
  destruct (Z.leb_spec n (prime a)); [exists a; reflexivity|].
  destruct He as [<-|He]; [lia|]. apply IH. exists e. split; assumption.
Qed.

Lemma fresh_of_perm : forall t L k, Permutation (entries t) L -> NoDup (k :: map fst L) ->
  forall x, In x (entries t) -> fst x <> k.
Proof.
  intros t L k P Hnd x Hx E. inversion Hnd as [|? ? Hnotin _]; subst.
  apply Hnotin. apply in_map. exact (Permutation_in _ P Hx).
Qed.

Lemma lookups_of_perm : forall t L, Inv t -> Permutation (entries t) L ->
  forall x, In x L -> forall d, Lookup t (fst x) (Some d) = Ok (true, Some (snd x)).
Proof.
  intros t L Hi P [k v] Hx d. simpl. rewrite (Lookup_entries t k (Some d) Hi).
  rewrite (proj1 (find_node_entries_In t k v Hi) (Permutation_in _ (Permutation_sym P) Hx)).
  reflexivity.
Qed.

Lemma CheckGrowth_nogrow : forall t, needs_growth t = false -> CheckGrowth t = Ok t.
Proof. intros t H. unfold CheckGrowth. rewrite H. reflexivity. Qed.

(** [Set] of a key absent from the table succeeds once [CheckGrowth] has. *)
Lemma Set_fresh : forall t t1 k v kind, Inv t -> CheckGrowth t = Ok t1 ->
  (forall x, In x (entries t) -> fst x <> k) ->
  exists t', Set_ t k v kind = Ok (false, t') /\ Inv t'
    /\ m_tableSizeInfo t' = m_tableSizeInfo t1 /\ m_tableMax t' = m_tableMax t1
    /\ m_tableCount t' = u32 (m_tableCount t + 1)
    /\ Permutation (entries t') ((k, v) :: entries t).
Proof.
  intros t t1 k v kind Hi Hg Hf.
  destruct (CheckGrowth_inv t t1 Hi Hg) as [G1 [G2 [G3 [b Hb]]]].
  destruct (Inv_Some t1 b G1 Hb) as [Hp _].
  unfold Set_. rewrite Hg. simpl. unfold assert_.
  destruct (Z.eqb_spec (prime (m_tableSizeInfo t1)) 0) as [E|E]; [lia|]. simpl.
  rewrite (GetIndexForKey_ok t1 b k G1 Hb). simpl.
  destruct (bucket_exists t1 b k G1 Hb) as [c [Hc Hr]]. rewrite Hr. simpl.
  destruct (find_node k c) as [n|] eqn:Hfn.
  - exfalso. destruct (present_key t1 b k c n G1 Hb Hc Hfn) as [Hn Hnk].
    exact (Hf n (Permutation_in _ G2 Hn) Hnk).
  - destruct (insert_new t1 b k v c G1 Hb Hc Hfn) as [I1 [I2 [I3 I4]]].
    eexists. split; [reflexivity|]. split; [exact I1|]. split; [exact I3|]. split; [exact I4|].
    split; [simpl; rewrite G3; reflexivity|].
    eapply perm_trans; [exact I2|]. apply perm_skip. exact G2.
Qed.

(** *** Size of the bucket array *)

Lemma table_size_prime : forall t, Inv t -> table_size t = prime (m_tableSizeInfo t).
Proof.
  intros t Hi. unfold table_size. destruct (m_table t) as [b|] eqn:Hb.
  - destruct (Inv_Some t b Hi Hb) as [Hp [_ [Hlen _]]]. lia.
  - destruct (Inv_None t Hi Hb) as [-> _]. reflexivity.
Qed.

(** With the default behavior and no wrap-around of [3 * p], the size
    [Grow] requests at the threshold of a table of [p] buckets is at least
    [p], unless [Grow] reports the overflow. *)
Lemma GrowSize_mono : Beh = JitHashTableBehavior -> forall p, 0 <= p -> 3 * p < 2 ^ 32 ->
  GrowSize (u32 (p * 3) / 4) < u32 (p * 3) / 4 \/ p <= GrowSize (u32 (p * 3) / 4).
Proof.
  intros HB p Hp Hb. unfold GrowSize. rewrite HB. simpl. unfold u32.
  rewrite (Z.mod_small (p * 3)) by lia.
  remember (p * 3 / 4) as c eqn:Ec.
  assert (Hc : 0 <= c * 3 < 2 ^ 32) by (Z.div_mod_to_equations; lia).
  rewrite (Z.mod_small (c * 3)) by lia.
  remember (c * 3 / 2) as g eqn:Eg.
  destruct (Z.ltb_spec (g * 4) (2 ^ 32)) as [Hg|Hg].
  - rewrite (Z.mod_small (g * 4)) by (Z.div_mod_to_equations; lia).
    destruct (Z.ltb_spec (g * 4 / 3) 7); right; Z.div_mod_to_equations; lia.
  - assert (Hq : (g * 4) mod 2 ^ 32 = g * 4 - 2 ^ 32).
    { rewrite Z.mod_eq by lia.
      assert (Hq : (g * 4) / 2 ^ 32 = 1) by (Z.div_mod_to_equations; lia). rewrite Hq. lia. }
    rewrite Hq. left.
    destruct (Z.ltb_spec ((g * 4 - 2 ^ 32) / 3) 7); Z.div_mod_to_equations; lia.
Qed.

Lemma Set_info : forall t k v kind r t', Set_ t k v kind = Ok (r, t') ->
  exists t1, CheckGrowth t = Ok t1 /\ m_tableSizeInfo t' = m_tableSizeInfo t1.
Proof.
  intros t k v kind r t' H. unfold Set_ in H.
  destruct (CheckGrowth t) as [t1| | |]; simpl in H; try discriminate.
  exists t1. split; [reflexivity|]. unfold assert_ in H.
  destruct (negb (prime (m_tableSizeInfo t1) =? 0)); simpl in H; try discriminate.
  destruct (GetIndexForKey t1 k) as [ix| | |]; simpl in H; try discriminate.
  destruct (read_bucket t1 ix) as [c| | |]; simpl in H; try discriminate.
  destruct (find_node k c).
  - destruct (is_Overwrite kind); simpl in H; try discriminate.
    injection H as _ <-. apply write_bucket_fields.
  - injection H as _ <-. simpl. apply write_bucket_fields.
Qed.

Lemma LookupPointerOrAdd_info : forall t k d r t', LookupPointerOrAdd t k d = Ok (r, t') ->
  exists t1, CheckGrowth t = Ok t1 /\ m_tableSizeInfo t' = m_tableSizeInfo t1.
Proof.
  intros t k d r t' H. unfold LookupPointerOrAdd in H.
  destruct (CheckGrowth t) as [t1| | |]; simpl in H; try discriminate.
  exists t1. split; [reflexivity|]. unfold assert_ in H.
  destruct (negb (prime (m_tableSizeInfo t1) =? 0)); simpl in H; try discriminate.
  destruct (GetIndexForKey t1 k) as [ix| | |]; simpl in H; try discriminate.
  destruct (read_bucket t1 ix) as [c| | |]; simpl in H; try discriminate.
  destruct (find_node k c).
  - injection H as _ <-. reflexivity.
  - injection H as _ <-. simpl. apply write_bucket_fields.
Qed.

Lemma Remove_info : forall t k r t', Remove t k = Ok (r, t') ->
  m_tableSizeInfo t' = m_tableSizeInfo t.
Proof.
  intros t k r t' H. unfold Remove in H.
  destruct (GetIndexForKey t k) as [ix| | |]; simpl in H; try discriminate.
  destruct (read_bucket t ix) as [c| | |]; simpl in H; try discriminate.
  destruct (find_node k c).
  - injection H as _ <-. simpl. apply write_bucket_fields.
  - injection H as _ <-. reflexivity.
Qed.

Section Default_behavior.

Hypothesis HB : Beh = JitHashTableBehavior.
Hypothesis primes_small : forall e, In e jitPrimeInfo -> 3 * prime e < 2 ^ 32.

Lemma CheckGrowth_mono : forall t t', Inv t -> CheckGrowth t = Ok t' ->
  prime (m_tableSizeInfo t) <= prime (m_tableSizeInfo t').
Proof.
  intros t t' Hi H. pose proof (CheckGrowth_inv t t' Hi H) as [G1 _].
  unfold CheckGrowth in H. destruct (needs_growth t) eqn:Hg.
  - pose proof H as H'. unfold Grow in H'.
    destruct (Z.ltb_spec (GrowSize (m_tableCount t)) (m_tableCount t)) as [Hl|Hl];
      [discriminate|].
    destruct (Grow_inv t t' Hi H) as [_ [_ [_ Hn]]].
    destruct (NextPrime_from_spec _ _ _ Hn) as [Hin Hle].
    unfold needs_growth in Hg. apply Z.eqb_eq in Hg.
    destruct (m_table t) as [b|] eqn:Hb.
    + destruct (Inv_Some t b Hi Hb) as [Hp [Hin0 [_ [_ Hmax]]]].
      rewrite Hg, Hmax in Hl. rewrite Hg, Hmax in Hle. rewrite HB in Hl, Hle. simpl in Hl, Hle.
      pose proof (primes_small _ Hin0) as Hs.
      destruct (GrowSize_mono HB (prime (m_tableSizeInfo t)) ltac:(lia) Hs); lia.
    + destruct (Inv_None t Hi Hb) as [-> _]. simpl.
      pose proof (primes_range _ Hin). lia.
  - injection H as <-. lia.
Qed.

Lemma exec_mono : forall t o t', Inv t -> exec t o = Ok t' ->
  (forall n, o <> op_Reallocate n) -> o <> op_RemoveAll ->
  table_size t <= table_size t'.
Proof.
  intros t o t' Hi H Hr Hra.
  pose proof (exec_Inv t o t' Hi H) as Hi'.
  rewrite (table_size_prime t Hi), (table_size_prime t' Hi').
  destruct o as [k v kind|k d|k d|k| |n|k]; simpl in H.
  - destruct (Set_ t k v kind) as [[r t1]| | |] eqn:E; try discriminate. injection H as <-.
    destruct (Set_info t k v kind r t1 E) as [t2 [Hg ->]]. exact (CheckGrowth_mono t t2 Hi Hg).
  - destruct (LookupPointerOrAdd t k d) as [[r t1]| | |] eqn:E; try discriminate.
    injection H as <-.
    destruct (LookupPointerOrAdd_info t k d r t1 E) as [t2 [Hg ->]].
    exact (CheckGrowth_mono t t2 Hi Hg).
  - rewrite Emplace_LookupPointerOrAdd in H.
    destruct (LookupPointerOrAdd t k d) as [[r t1]| | |] eqn:E; try discriminate.
    injection H as <-.
    destruct (LookupPointerOrAdd_info t k d r t1 E) as [t2 [Hg ->]].
    exact (CheckGrowth_mono t t2 Hi Hg).
  - destruct (Remove t k) as [[r t1]| | |] eqn:E; try discriminate. injection H as <-.
    rewrite (Remove_info t k r t1 E). lia.
  - contradiction.
  - exfalso. exact (Hr n eq_refl).
  - destruct (Lookup t k None); simpl in H; try discriminate. injection H as <-. lia.
Qed.

Lemma threshold_default : forall p, 7 <= p -> 3 * p < 2 ^ 32 ->
  5 <= u32 (p * s_density_factor_numerator Beh) / s_density_factor_denominator Beh
  /\ (u32 (p * s_density_factor_numerator Beh) / s_density_factor_denominator Beh = 5 <-> p = 7).
Proof.
  intros p H7 Hs. rewrite HB. simpl. unfold u32. rewrite Z.mod_small by lia.
  split; [Z.div_mod_to_equations; lia|]. split; [intro; Z.div_mod_to_equations; lia | intros ->; reflexivity].
Qed.

Lemma Set_nogrow : forall t k v kind, Inv t -> needs_growth t = false ->
  (forall x, In x (entries t) -> fst x <> k) ->
  exists t', Set_ t k v kind = Ok (false, t') /\ Inv t'
    /\ m_tableSizeInfo t' = m_tableSizeInfo t /\ m_tableMax t' = m_tableMax t
    /\ m_tableCount t' = u32 (m_tableCount t + 1)
    /\ Permutation (entries t') ((k, v) :: entries t).
Proof.
  intros t k v kind Hi Hg Hf. exact (Set_fresh t t k v kind Hi (CheckGrowth_nogrow t Hg) Hf).
Qed.

(** C4 (amended): with the default behavior (growth 3/2, density 3/4,
    minimum allocation 7), six [Set]s of distinct keys into an empty table.
    The first insertion already grows the table (count 0 equals the
    threshold 0 of the empty table) to [p0], the first stored prime not
    below 7; keys 2 to 5 trigger no growth and [GetCount] is then 5; key 6
    triggers growth exactly when [p0 = 7] (threshold [3 * 7 / 4 = 5]), and
    the size requested from count 5 is 9, not 10, rounded by [NextPrime];
    with a larger [p0] the table keeps [p0]; the six keys are then all
    found with their values. *)
Theorem six_inserts_growth :
  (exists e, In e jitPrimeInfo /\ 9 <= prime e) ->
  forall (k1 k2 k3 k4 k5 k6 : Key) (v1 v2 v3 v4 v5 v6 : Value),
  NoDup [k1; k2; k3; k4; k5; k6] ->
  exists p0 t1 t2 t3 t4 t5 t6,
    NextPrime 7 = Ok p0
    /\ needs_growth empty_table = true
    /\ Set_ empty_table k1 v1 SetKind_None = Ok (false, t1)
    /\ m_tableSizeInfo t1 = p0
    /\ needs_growth t1 = false /\ Set_ t1 k2 v2 SetKind_None = Ok (false, t2)
    /\ needs_growth t2 = false /\ Set_ t2 k3 v3 SetKind_None = Ok (false, t3)
    /\ needs_growth t3 = false /\ Set_ t3 k4 v4 SetKind_None = Ok (false, t4)
    /\ needs_growth t4 = false /\ Set_ t4 k5 v5 SetKind_None = Ok (false, t5)
    /\ m_tableSizeInfo t5 = p0 /\ GetCount t5 = 5
    /\ needs_growth t5 = (prime p0 =? 7)
    /\ Set_ t5 k6 v6 SetKind_None = Ok (false, t6)
    /\ (prime p0 = 7 -> GrowSize (GetCount t5) = 9 /\ NextPrime 9 = Ok (m_tableSizeInfo t6))
    /\ (prime p0 <> 7 -> m_tableSizeInfo t6 = p0)
    /\ GetCount t6 = 6
    /\ forall x, In x [(k1, v1); (k2, v2); (k3, v3); (k4, v4); (k5, v5); (k6, v6)] ->
       forall d, Lookup t6 (fst x) (Some d) = Ok (true, Some (snd x)).
Proof.
  intros Hbig k1 k2 k3 k4 k5 k6 v1 v2 v3 v4 v5 v6 Hnd.
  pose proof (NoDup_rev Hnd) as R6. simpl in R6.
  inversion R6 as [|? ? _ R5]; subst. inversion R5 as [|? ? _ R4]; subst.
  inversion R4 as [|? ? _ R3]; subst. inversion R3 as [|? ? _ R2]; subst.
  destruct (NextPrime_from_exists jitPrimeInfo 7) as [p0 Hp0].
  { destruct Hbig as [e [He He9]]. exists e. split; [exact He | lia]. }
  destruct (NextPrime_from_spec _ _ _ Hp0) as [Hin0 Hge0].
  destruct (threshold_default (prime p0) Hge0 (primes_small _ Hin0)) as [Hm5 Hm7].
  assert (HG0 : GrowSize 0 = 7) by (unfold GrowSize; rewrite HB; reflexivity).
  destruct (Reallocate_ok empty_table 7 p0 Inv_empty) as [t0 [Rt0 [I0 [_ [S0 [_ M0]]]]]];
    [apply Z.leb_le; rewrite HB; reflexivity | exact Hp0 |].
  remember (u32 (prime p0 * s_density_factor_numerator Beh) / s_density_factor_denominator Beh)
    as M eqn:EM.
  assert (CG0 : CheckGrowth empty_table = Ok t0).
  { unfold CheckGrowth, Grow. change (needs_growth empty_table) with true.
    change (m_tableCount empty_table) with 0. rewrite HG0. exact Rt0. }
  destruct (Set_fresh empty_table t0 k1 v1 SetKind_None Inv_empty CG0) as
    [t1 [E1 [I1 [S1 [M1 [C1 P1]]]]]]; [intros x []|].
  rewrite S0 in S1. rewrite M0 in M1.
  assert (C1' : m_tableCount t1 = 1) by (rewrite C1; reflexivity).
  assert (Q1 : Permutation (entries t1) [(k1, v1)]) by exact P1.
  assert (N1 : needs_growth t1 = false)
    by (unfold needs_growth; rewrite C1', M1; apply Z.eqb_neq; lia).
  destruct (Set_nogrow t1 k2 v2 SetKind_None I1 N1 (fresh_of_perm t1 _ k2 Q1 R2)) as
    [t2 [E2 [I2 [S2 [M2 [C2 P2]]]]]].
  assert (C2' : m_tableCount t2 = 2) by (rewrite C2, C1'; reflexivity).
  assert (Q2 : Permutation (entries t2) [(k2, v2); (k1, v1)])
    by (eapply perm_trans; [exact P2 | apply perm_skip; exact Q1]).
  assert (N2 : needs_growth t2 = false)
    by (unfold needs_growth; rewrite C2', M2, M1; apply Z.eqb_neq; lia).
  destruct (Set_nogrow t2 k3 v3 SetKind_None I2 N2 (fresh_of_perm t2 _ k3 Q2 R3)) as
    [t3 [E3 [I3 [S3 [M3 [C3 P3]]]]]].
  assert (C3' : m_tableCount t3 = 3) by (rewrite C3, C2'; reflexivity).
  assert (Q3 : Permutation (entries t3) [(k3, v3); (k2, v2); (k1, v1)])
    by (eapply perm_trans; [exact P3 | apply perm_skip; exact Q2]).
  assert (N3 : needs_growth t3 = false)
    by (unfold needs_growth; rewrite C3', M3, M2, M1; apply Z.eqb_neq; lia).
  destruct (Set_nogrow t3 k4 v4 SetKind_None I3 N3 (fresh_of_perm t3 _ k4 Q3 R4)) as
    [t4 [E4 [I4 [S4 [M4 [C4 P4]]]]]].
  assert (C4' : m_tableCount t4 = 4) by (rewrite C4, C3'; reflexivity).
  assert (Q4 : Permutation (entries t4) [(k4, v4); (k3, v3); (k2, v2); (k1, v1)])
    by (eapply perm_trans; [exact P4 | apply perm_skip; exact Q3]).
  assert (N4 : needs_growth t4 = false)
    by (unfold needs_growth; rewrite C4', M4, M3, M2, M1; apply Z.eqb_neq; lia).
  destruct (Set_nogrow t4 k5 v5 SetKind_None I4 N4 (fresh_of_perm t4 _ k5 Q4 R5)) as
    [t5 [E5 [I5 [S5 [M5 [C5 P5]]]]]].
  assert (C5' : m_tableCount t5 = 5) by (rewrite C5, C4'; reflexivity).
  assert (Q5 : Permutation (entries t5) [(k5, v5); (k4, v4); (k3, v3); (k2, v2); (k1, v1)])
    by (eapply perm_trans; [exact P5 | apply perm_skip; exact Q4]).
  assert (S5p : m_tableSizeInfo t5 = p0) by (rewrite S5, S4, S3, S2; exact S1).
  assert (N5 : needs_growth t5 = (prime p0 =? 7)).
  { unfold needs_growth. rewrite C5', M5, M4, M3, M2, M1.
    destruct (Z.eqb_spec (prime p0) 7) as [E|E].
    - apply Z.eqb_eq. symmetry. apply Hm7. exact E.
    - apply Z.eqb_neq. intro X. apply E. apply Hm7. lia. }
  destruct (Z.eqb_spec (prime p0) 7) as [E7|E7].
  - assert (HG5 : GrowSize 5 = 9) by (unfold GrowSize; rewrite HB; reflexivity).
    destruct (NextPrime_from_exists jitPrimeInfo 9 Hbig) as [e9 He9].
    destruct (Reallocate_ok t5 9 e9 I5) as [t5' [Rt5 [I5' [_ [S5' _]]]]];
      [rewrite C5'; apply Z.leb_le; rewrite HB; reflexivity | exact He9 |].
    assert (CG5 : CheckGrowth t5 = Ok t5').
    { unfold CheckGrowth, Grow. rewrite N5, C5', HG5. exact Rt5. }
    destruct (Set_fresh t5 t5' k6 v6 SetKind_None I5 CG5 (fresh_of_perm t5 _ k6 Q5 R6)) as
      [t6 [E6 [I6 [S6 [_ [C6 P6]]]]]].
    assert (Q6 : Permutation (entries t6)
                   [(k6, v6); (k5, v5); (k4, v4); (k3, v3); (k2, v2); (k1, v1)])
      by (eapply perm_trans; [exact P6 | apply perm_skip; exact Q5]).
    exists p0, t1, t2, t3, t4, t5, t6.
    split; [exact Hp0|]. split; [reflexivity|]. split; [exact E1|]. split; [exact S1|].
    split; [exact N1|]. split; [exact E2|]. split; [exact N2|]. split; [exact E3|].
    split; [exact N3|]. split; [exact E4|]. split; [exact N4|]. split; [exact E5|].
    split; [exact S5p|]. split; [exact C5'|]. split; [rewrite E7; exact N5|].
    split; [exact E6|].
    split; [intros _; split; [unfold GetCount; rewrite C5'; exact HG5 | rewrite S6, S5'; exact He9]|].
    split; [intro X; exfalso; exact (X E7)|].
    split; [unfold GetCount; rewrite C6, C5'; reflexivity|].
    intros x Hx d. apply (lookups_of_perm t6 _ I6 Q6). simpl in Hx |- *. tauto.
  - assert (N5' : needs_growth t5 = false) by exact N5.
    destruct (Set_nogrow t5 k6 v6 SetKind_None I5 N5' (fresh_of_perm t5 _ k6 Q5 R6)) as
      [t6 [E6 [I6 [S6 [_ [C6 P6]]]]]].
    assert (Q6 : Permutation (entries t6)
                   [(k6, v6); (k5, v5); (k4, v4); (k3, v3); (k2, v2); (k1, v1)])
      by (eapply perm_trans; [exact P6 | apply perm_skip; exact Q5]).
    exists p0, t1, t2, t3, t4, t5, t6.
    split; [exact Hp0|]. split; [reflexivity|]. split; [exact E1|]. split; [exact S1|].
    split; [exact N1|]. split; [exact E2|]. split; [exact N2|]. split; [exact E3|].
    split; [exact N3|]. split; [exact E4|]. split; [exact N4|]. split; [exact E5|].
    split; [exact S5p|]. split; [exact C5'|].
    split; [rewrite N5; symmetry; apply Z.eqb_neq; exact E7|].
    split; [exact E6|].
    split; [intro X; contradiction|].
    split; [intros _; rewrite S6; exact S5p|].
    split; [unfold GetCount; rewrite C6, C5'; reflexivity|].
    intros x Hx d. apply (lookups_of_perm t6 _ I6 Q6). simpl in Hx |- *. tauto.
Qed.

(** C7 (amended): at every reachable state, a bucket array, when there is
    one, has as many buckets as the prime of an entry of the prime table
    (no array: size 0); with the default behavior and no wrap-around of
    [3 * p] for the stored primes, [Set], [LookupPointerOrAdd], [Emplace],
    [Remove] and [Lookup] never make the array smaller.  [RemoveAll] and an
    explicit [Reallocate] can. *)
Theorem bucket_array_size : forall ops t, run empty_table ops = Ok t ->
  match m_table t with
  | None => table_size t = 0
  | Some _ => exists e, In e jitPrimeInfo /\ table_size t = prime e
  end
  /\ forall o t', exec t o = Ok t' -> (forall n, o <> op_Reallocate n) -> o <> op_RemoveAll ->
     table_size t <= table_size t'.
Proof.
  intros ops t H. destruct (run_empty_inv ops t H) as [Hi _]. split.
  - destruct (m_table t) as [b|] eqn:Hb.
    + destruct (Inv_Some t b Hi Hb) as [_ [Hin _]].
      exists (m_tableSizeInfo t). split; [exact Hin | exact (table_size_prime t Hi)].
    + unfold table_size. rewrite Hb. reflexivity.
  - intros o t' He Hr Hra. exact (exec_mono t o t' Hi He Hr Hra).
Qed.

End Default_behavior.

(** ** The claims *)

(** C1: after any sequence of operations that runs to completion from the
    empty table, every key inserted by [Set], [LookupPointerOrAdd] or
    [Emplace] and not removed since is found by [Lookup], which returns
    true and writes the value most recently set for it. *)
Theorem Lookup_after_ops : forall ops t k v, run empty_table ops = Ok t ->
  spec_contents ops k = Some v -> forall d, Lookup t k (Some d) = Ok (true, Some v).
Proof.
  intros ops t k v H Hk d. destruct (run_empty_inv ops t H) as [Hi Habs].
  rewrite (Lookup_entries t k (Some d) Hi).
  rewrite (proj1 (find_node_entries_In t k v Hi) (proj2 (Habs k v) Hk)). reflexivity.
Qed.

(** C2: a rehash, by [Grow] or by an explicit [Reallocate], of a reachable
    table keeps exactly the same nodes (a permutation: nothing lost, nothing
    duplicated), the same count, and the same answer of [Lookup] for every
    key. *)
Theorem rehash_lossless : forall ops t t', run empty_table ops = Ok t ->
  ((exists n, Reallocate t n = Ok t') \/ Grow t = Ok t') ->
  Permutation (entries t') (entries t) /\ GetCount t' = GetCount t
  /\ (forall k pv, Lookup t' k pv = Lookup t k pv).
Proof.
  intros ops t t' H Hr. destruct (run_empty_inv ops t H) as [Hi _].
  assert (R : Inv t' /\ Permutation (entries t') (entries t) /\ m_tableCount t' = m_tableCount t).
  { destruct Hr as [[n Hn]|Hg].
    - destruct (Reallocate_inv t n t' Hi Hn) as [R1 [R2 [R3 _]]]. auto.
    - destruct (Grow_inv t t' Hi Hg) as [R1 [R2 [R3 _]]]. auto. }
  destruct R as [Hi' [P C]]. split; [exact P|]. split; [exact C|].
  intros k pv. rewrite (Lookup_entries t' k pv Hi'), (Lookup_entries t k pv Hi).
  rewrite (find_node_perm k (entries t') (entries t) (inv_nodup t' Hi') P). reflexivity.
Qed.

(** C5 (amended): after any sequence of operations that runs to completion
    from the empty table, [GetCount] is the number of distinct keys stored
    now (inserted and not removed since; a key removed and inserted again
    counts once), taken modulo [2^32]; it is 0 after [RemoveAll]. *)
Theorem GetCount_stored_keys : forall ops t, run empty_table ops = Ok t ->
  (exists ks, NoDup ks /\ (forall k, In k ks <-> spec_contents ops k <> None)
              /\ GetCount t = u32 (Z.of_nat (length ks)))
  /\ GetCount (RemoveAll t) = 0.
Proof.
  intros ops t H. destruct (run_empty_inv ops t H) as [Hi Habs]. split; [|reflexivity].
  exists (map fst (entries t)). split; [exact (inv_nodup t Hi)|]. split.
  - intro k. rewrite in_map_iff. split.
    + intros [[k' v] [Hk Hin]]. simpl in Hk. subst k'. apply Habs in Hin. congruence.
    + intro Hs. destruct (spec_contents ops k) as [v|] eqn:E; [|contradiction].
      exists (k, v). split; [reflexivity|]. apply Habs. exact E.
  - unfold GetCount. rewrite (inv_count t Hi), length_map. reflexivity.
Qed.

(** C6: [Remove] of a key absent from a table that has a bucket array
    returns false and leaves the table as it was; but on a table with no
    bucket array (freshly constructed, or after [RemoveAll]) [Remove]
    computes [hash % 0] and reads through the null [m_table]: its behavior
    is undefined, where [FindNode] guards the same case. *)
Theorem Remove_without_array : forall ops t k, run empty_table ops = Ok t ->
  (m_table t <> None -> spec_contents ops k = None -> Remove t k = Ok (false, t))
  /\ Remove (RemoveAll t) k = Undefined
  /\ FindNode (RemoveAll t) k = Ok None.
Proof.
  intros ops t k H. destruct (run_empty_inv ops t H) as [Hi Habs].
  split; [|split; reflexivity].
  intros Hb Hk. destruct (m_table t) as [b|] eqn:Hb'; [|contradiction].
  unfold Remove. rewrite (GetIndexForKey_ok t b k Hi Hb'). simpl.
  destruct (bucket_exists t b k Hi Hb') as [c [Hc Hr]]. rewrite Hr. simpl.
  destruct (find_node k c) as [n|] eqn:Hf; [|reflexivity].
  exfalso. destruct (present_key t b k c n Hi Hb' Hc Hf) as [Hn Hnk].
  destruct n as [kn vn]. simpl in Hnk. subst kn. apply Habs in Hn. congruence.
Qed.

(** C8: [Set] first runs [CheckGrowth]; on the table [t1] it yields, with
    [i] the bucket of [k] and [c] its chain: a key already present with
    [SetKind_None] fails the assertion; with [Overwrite] the node's value is
    replaced in place, true is returned and the count is unchanged; an
    absent key gets a new node [(k, v)] at the head of chain [c], false is
    returned and the count grows by one. *)
Theorem Set_cases : forall ops t t1 k v kind, run empty_table ops = Ok t ->
  CheckGrowth t = Ok t1 ->
  exists b c,
    let i := index_of (prime (m_tableSizeInfo t1)) k in
    m_table t1 = Some b /\ nth_error b (Z.to_nat i) = Some c
    /\ Permutation (entries t1) (entries t) /\ GetCount t1 = GetCount t
    /\ ((exists v0, In (k, v0) (entries t)) ->
          (kind = SetKind_None -> Set_ t k v kind = Assert_failed)
          /\ (kind = Overwrite ->
                Set_ t k v kind = Ok (true, write_bucket t1 i (overwrite_chain k v c))
                /\ find_node k (entries (write_bucket t1 i (overwrite_chain k v c))) = Some (k, v)
                /\ GetCount (write_bucket t1 i (overwrite_chain k v c)) = GetCount t))
    /\ ((forall v0, ~ In (k, v0) (entries t)) ->
          Set_ t k v kind =
            Ok (false, with_count (write_bucket t1 i ((k, v) :: c)) (u32 (GetCount t + 1)))).
Proof.
  intros ops t t1 k v kind H Hg. destruct (run_empty_inv ops t H) as [Hi _].
  destruct (CheckGrowth_inv t t1 Hi Hg) as [G1 [G2 [G3 [b Hb]]]].
  destruct (Inv_Some t1 b G1 Hb) as [Hp _].
  destruct (bucket_exists t1 b k G1 Hb) as [c [Hc Hr]].
  exists b, c. simpl. split; [exact Hb|]. split; [exact Hc|]. split; [exact G2|].
  split; [exact G3|].
  assert (HS : Set_ t k v kind =
    match find_node k c with
    | Some _ => let* _ := assert_ (is_Overwrite kind) in
                Ok (true, write_bucket t1 (index_of (prime (m_tableSizeInfo t1)) k)
                                       (overwrite_chain k v c))
    | None => Ok (false, with_count (write_bucket t1 (index_of (prime (m_tableSizeInfo t1)) k)
                                                 ((k, v) :: c)) (u32 (m_tableCount t1 + 1)))
    end).
  { unfold Set_. rewrite Hg. simpl. unfold assert_.
    destruct (Z.eqb_spec (prime (m_tableSizeInfo t1)) 0) as [E|E]; [lia|]. simpl.
    rewrite (GetIndexForKey_ok t1 b k G1 Hb). simpl. rewrite Hr. reflexivity. }
  split.
  - intros [v0 Hv0].
    assert (Hin1 : In (k, v0) (entries t1)) by exact (Permutation_in _ (Permutation_sym G2) Hv0).
    destruct (find_node k c) as [n|] eqn:Hf.
    2: { exfalso. exact (absent_key t1 b k c _ G1 Hb Hc Hf Hin1 eq_refl). }
    split.
    + intros ->. rewrite HS. reflexivity.
    + intros ->. rewrite HS. split; [reflexivity|].
      destruct (overwrite_existing t1 b k v c n G1 Hb Hc Hf) as [O1 [_ [[R [_ P2]] [_ [_ O6]]]]].
      split.
      * apply (proj1 (find_node_entries_In _ k v O1)).
        apply (Permutation_in _ (Permutation_sym P2)). left. reflexivity.
      * unfold GetCount. rewrite O6. exact G3.
  - intro Hn. rewrite HS.
    destruct (find_node k c) as [n|] eqn:Hf.
    + exfalso. destruct (present_key t1 b k c n G1 Hb Hc Hf) as [Hn1 Hnk].
      destruct n as [kn vn]. simpl in Hnk. subst kn.
      exact (Hn vn (Permutation_in _ G2 Hn1)).
    + unfold GetCount. rewrite G3. reflexivity.
Qed.


(** C10: on a reachable table, [Lookup] of an absent key returns false and
    leaves the caller's location as it was; with [pVal = nullptr] it only
    reports presence and writes nothing; the table itself is not modified
    ([Lookup] is [const]: the operation returns the same table). *)
Theorem Lookup_absent_frame : forall ops t k pv, run empty_table ops = Ok t ->
  (spec_contents ops k = None -> Lookup t k pv = Ok (false, pv))
  /\ Lookup t k None = Ok (match spec_contents ops k with Some _ => true | None => false end, None)
  /\ exec t (op_Lookup k) = Ok t.
Proof.
  intros ops t k pv H. destruct (run_empty_inv ops t H) as [Hi Habs].
  assert (Hf : forall v, spec_contents ops k = Some v -> find_node k (entries t) = Some (k, v)).
  { intros v Hv. apply (find_node_entries_In t k v Hi). apply Habs. exact Hv. }
  assert (Hn : spec_contents ops k = None -> find_node k (entries t) = None).
  { intros Hv. destruct (find_node k (entries t)) as [n|] eqn:E; [|reflexivity].
    exfalso. destruct (find_node_Some k _ n E) as [Hin Hk].
    destruct n as [kn vn]. simpl in Hk. subst kn. apply Habs in Hin. congruence. }
  split; [|split].
  - intro Hv. rewrite (Lookup_entries t k pv Hi), (Hn Hv). reflexivity.
  - rewrite (Lookup_entries t k None Hi).
    destruct (spec_contents ops k) as [v|] eqn:E.
    + rewrite (Hf v eq_refl). reflexivity.
    + rewrite (Hn eq_refl). reflexivity.
  - simpl. rewrite (Lookup_entries t k None Hi). reflexivity.
Qed.

(** ** Further properties of the table operations *)

(** *** Lookups through [LookupPointer] *)

Lemma LookupPointer_entries : forall t k, Inv t ->
  LookupPointer t k = Ok (option_map snd (find_node k (entries t))).
Proof. intros t k Hi. unfold LookupPointer. rewrite (FindNode_entries t k Hi). reflexivity. Qed.

Lemma LookupPointer_spec : forall t k o, Inv t ->
  (LookupPointer t k = Ok o <-> forall v, o = Some v <-> In (k, v) (entries t)).
Proof.
  intros t k o Hi. rewrite (LookupPointer_entries t k Hi).
  destruct (find_node k (entries t)) as [n|] eqn:E; simpl.
  - destruct (find_node_Some k (entries t) n E) as [Hn Hk].
    destruct n as [k0 v0]. simpl in Hk. subst k0. simpl. split.
    + intros Ho v. injection Ho as <-. split.
      * intro Hv. injection Hv as <-. exact Hn.
      * intro Hin. apply (find_node_entries_In t k v Hi) in Hin. rewrite E in Hin. congruence.
    + intro Hall. f_equal. symmetry. apply Hall. exact Hn.
  - split.
    + intros Ho v. injection Ho as <-. split; [discriminate|].
      intro Hin. exfalso. exact (find_node_None k (entries t) (k, v) E Hin eq_refl).
    + intro Hall. destruct o as [v|]; [|reflexivity].
      exfalso. exact (find_node_None k (entries t) (k, v) E (proj1 (Hall v) eq_refl) eq_refl).
Qed.

Lemma LookupPointer_present : forall t k v, Inv t -> In (k, v) (entries t) ->
  LookupPointer t k = Ok (Some v).
Proof.
  intros t k v Hi Hin. apply (LookupPointer_spec t k (Some v) Hi). intro w. split.
  - intro E. injection E as <-. exact Hin.
  - intro Hw. pose proof (proj1 (find_node_entries_In t k w Hi) Hw) as E1.
    pose proof (proj1 (find_node_entries_In t k v Hi) Hin) as E2. congruence.
Qed.

Lemma LookupPointer_absent : forall t k, Inv t -> (forall v, ~ In (k, v) (entries t)) ->
  LookupPointer t k = Ok None.
Proof.
  intros t k Hi Ha. apply (LookupPointer_spec t k None Hi). intro v. split; [discriminate|].
  intro Hin. exfalso. exact (Ha v Hin).
Qed.

Lemma LookupPointer_some_In : forall t k v, Inv t -> LookupPointer t k = Ok (Some v) ->
  In (k, v) (entries t).
Proof. intros t k v Hi H. exact (proj1 (proj1 (LookupPointer_spec t k _ Hi) H v) eq_refl). Qed.

Lemma LookupPointer_none : forall t k v, Inv t -> LookupPointer t k = Ok None ->
  ~ In (k, v) (entries t).
Proof.
  intros t k v Hi H Hin. pose proof (proj2 (proj1 (LookupPointer_spec t k _ Hi) H v) Hin).
  discriminate.
Qed.

Lemma LookupPointer_frame : forall t t' k, Inv t -> Inv t' ->
  (forall v, In (k, v) (entries t') <-> In (k, v) (entries t)) ->
  LookupPointer t' k = LookupPointer t k.
Proof.
  intros t t' k Hi Hi' H.
  pose proof (LookupPointer_entries t k Hi) as E. rewrite E.
  apply (LookupPointer_spec t' k _ Hi'). intro v. rewrite H.
  apply (LookupPointer_spec t k _ Hi). exact E.
Qed.

Lemma LookupPointer_contents : forall ops t k, run empty_table ops = Ok t ->
  LookupPointer t k = Ok (spec_contents ops k).
Proof.
  intros ops t k H. destruct (run_empty_inv ops t H) as [Hi Habs].
  apply (LookupPointer_spec t k _ Hi). intro v. rewrite Habs. reflexivity.
Qed.

(** *** Counting *)

Lemma NoDup_entries : forall t, Inv t -> NoDup (entries t).
Proof. intros t Hi. apply (NoDup_map_inv fst). exact (inv_nodup t Hi). Qed.

Lemma count_same_members : forall t t', Inv t -> Inv t' ->
  (forall x, In x (entries t') <-> In x (entries t)) -> m_tableCount t' = m_tableCount t.
Proof.
  intros t t' Hi Hi' H. rewrite (inv_count t Hi), (inv_count t' Hi').
  assert (P : Permutation (entries t') (entries t)).
  { apply NoDup_Permutation; [exact (NoDup_entries t' Hi') | exact (NoDup_entries t Hi) | exact H]. }
  rewrite (Permutation_length P). reflexivity.
Qed.

Lemma count_insert : forall t t' k v, Inv t -> Inv t' -> (forall v0, ~ In (k, v0) (entries t)) ->
  (forall x, In x (entries t') <-> x = (k, v) \/ In x (entries t)) ->
  m_tableCount t' = u32 (m_tableCount t + 1).
Proof.
  intros t t' k v Hi Hi' Ha H. rewrite (inv_count t Hi), (inv_count t' Hi').
  assert (P : Permutation (entries t') ((k, v) :: entries t)).
  { apply NoDup_Permutation; [exact (NoDup_entries t' Hi')| |].
    - constructor; [|exact (NoDup_entries t Hi)]. exact (Ha v).
    - intro x. rewrite H. simpl. split; intros [E|E];
        [left; symmetry; exact E | right; exact E | left; symmetry; exact E | right; exact E]. }
  rewrite (Permutation_length P). cbn [length]. rewrite Nat2Z.inj_succ, u32_succ. reflexivity.
Qed.

Lemma Set_count : forall t k v kind r t', Inv t -> Set_ t k v kind = Ok (r, t') ->
  m_tableCount t' = if r then m_tableCount t else u32 (m_tableCount t + 1).
Proof.
  intros t k v kind r t' Hi H. unfold Set_ in H.
  destruct (CheckGrowth t) as [t1| | |] eqn:Hg; simpl in H; try discriminate.
  destruct (CheckGrowth_inv t t1 Hi Hg) as [_ [_ [Hc _]]].
  unfold assert_ in H.
  destruct (negb (prime (m_tableSizeInfo t1) =? 0)); simpl in H; try discriminate.
  destruct (GetIndexForKey t1 k) as [ix| | |]; simpl in H; try discriminate.
  destruct (read_bucket t1 ix) as [c| | |]; simpl in H; try discriminate.
  destruct (find_node k c).
  - destruct (is_Overwrite kind); simpl in H; try discriminate.
    injection H as <- <-. rewrite (proj1 (proj2 (write_bucket_fields t1 ix _))). exact Hc.
  - injection H as <- <-. simpl. rewrite Hc. reflexivity.
Qed.

(** [LookupPointerOrAdd] (and [Emplace], which runs the same code) seen
    through [LookupPointer]. *)
Lemma LookupPointerOrAdd_lookups : forall t k d r t', Inv t ->
  LookupPointerOrAdd t k d = Ok (r, t') ->
  exists o, LookupPointer t k = Ok o
    /\ r = match o with Some v => v | None => d end
    /\ LookupPointer t' k = Ok (Some r)
    /\ (forall k', k' <> k -> LookupPointer t' k' = LookupPointer t k')
    /\ (o <> None -> forall k', LookupPointer t' k' = LookupPointer t k')
    /\ GetCount t' = match o with Some _ => GetCount t | None => u32 (GetCount t + 1) end.
Proof.
  intros t k d r t' Hi Hl.
  destruct (LookupPointerOrAdd_inv t k d r t' Hi Hl) as [Hi' [Hp Ha]].
  destruct (find_node k (entries t)) as [[k0 v0]|] eqn:E.
  - destruct (find_node_Some k _ _ E) as [Hin Hk]. simpl in Hk. subst k0.
    destruct (Hp (ex_intro _ v0 Hin)) as [Hr Hsame].
    assert (Hrv : r = v0).
    { apply (find_node_entries_In t k r Hi) in Hr. rewrite E in Hr. congruence. }
    subst r. exists (Some v0).
    assert (Hall : forall k', LookupPointer t' k' = LookupPointer t k').
    { intro k'. apply LookupPointer_frame; [exact Hi | exact Hi' | intro v; apply Hsame]. }
    split; [exact (LookupPointer_present t k v0 Hi Hin)|].
    split; [reflexivity|].
    split; [apply (LookupPointer_present t' k v0 Hi'); apply Hsame; exact Hin|].
    split; [intros k' _; apply Hall|]. split; [intros _; exact Hall|].
    unfold GetCount. apply count_same_members; [exact Hi | exact Hi' | exact Hsame].
  - assert (Habs : forall v0, ~ In (k, v0) (entries t)).
    { intros v0 Hin. exact (find_node_None k _ (k, v0) E Hin eq_refl). }
    destruct (Ha Habs) as [Hrd Hmem]. subst r. exists None.
    split; [exact (LookupPointer_absent t k Hi Habs)|]. split; [reflexivity|].
    split; [apply (LookupPointer_present t' k d Hi'); apply Hmem; left; reflexivity|].
    split.
    + intros k' Hk'. apply LookupPointer_frame; [exact Hi | exact Hi'|].
      intro v. rewrite Hmem. split; [intros [Ex|Ex]; [injection Ex as Ex _; congruence | exact Ex] | intro Ex; right; exact Ex].
    + split; [intro Hn; exfalso; apply Hn; reflexivity|].
      unfold GetCount. exact (count_insert t t' k d Hi Hi' Habs Hmem).
Qed.


(** *** Prime selection *)

Lemma NextPrime_from_first : forall l number,
  (forall e, NextPrime_from l number = Ok e ->
     exists pre post, l = pre ++ e :: post /\ number <= prime e
       /\ forall e', In e' pre -> prime e' < number)
  /\ (NextPrime_from l number = No_memory <-> forall e, In e l -> prime e < number).
Proof.
  intros l. induction l as [|a l IH]; intros number; simpl.
  - split; [discriminate|]. split; [intros _ e []|reflexivity].
  - destruct (IH number) as [IH1 IH2].
    destruct (Z.leb_spec number (prime a)) as [Hle|Hgt].
    + split.
      * intros e He. injection He as <-. exists [], l.
        split; [reflexivity|]. split; [exact Hle|]. intros e' [].
      * split; [discriminate|]. intro H. specialize (H a (or_introl eq_refl)). lia.
    + split.
      * intros e He. destruct (IH1 e He) as (pre & post & E & H1 & H2).
        exists (a :: pre), post. split; [rewrite E; reflexivity|]. split; [exact H1|].
        intros e' [<-|H']; [exact Hgt | exact (H2 e' H')].
      * rewrite IH2. split.
        -- intros H e [<-|He]; [exact Hgt | exact (H e He)].
        -- intros H e He. apply H. right. exact He.
Qed.


(** *** Inserting past the growth threshold *)

Lemma Sets_no_growth : forall kvs t kind, Inv t ->
  (forall i, 0 <= i < Z.of_nat (length kvs) -> u32 (m_tableCount t + i) <> m_tableMax t) ->
  NoDup (map fst kvs) ->
  (forall x, In x (entries t) -> ~ In (fst x) (map fst kvs)) ->
  exists t', run t (map (fun kv => op_Set (fst kv) (snd kv) kind) kvs) = Ok t' /\ Inv t'
    /\ m_tableSizeInfo t' = m_tableSizeInfo t /\ m_tableMax t' = m_tableMax t
    /\ m_tableCount t' = u32 (m_tableCount t + Z.of_nat (length kvs))
    /\ length (entries t') = (length (entries t) + length kvs)%nat.
Proof.
  intros kvs. induction kvs as [|[k v] kvs IH]; intros t kind Hi Hne Hnd Hf.
  - exists t. split; [reflexivity|]. split; [exact Hi|].
    split; [reflexivity|]. split; [reflexivity|]. split; [|simpl; lia].
    rewrite Z.add_0_r, (inv_count t Hi). unfold u32. rewrite Z.mod_mod by lia. reflexivity.
  - cbn [map fst snd length] in *. inversion Hnd as [|? ? Hk Hnd']; subst.
    assert (Hc0 : m_tableCount t = u32 (m_tableCount t + 0)).
    { rewrite Z.add_0_r, (inv_count t Hi). unfold u32. rewrite Z.mod_mod by lia. reflexivity. }
    assert (Hg : needs_growth t = false).
    { unfold needs_growth. apply Z.eqb_neq. rewrite Hc0. apply Hne. lia. }
    assert (Hfk : forall x, In x (entries t) -> fst x <> k).
    { intros x Hx E. apply (Hf x Hx). left. symmetry. exact E. }
    destruct (Set_fresh t t k v kind Hi (CheckGrowth_nogrow t Hg) Hfk)
      as (t1 & Hs & Hi1 & Hsz & Hmax & Hc & Hp).
    assert (Hne1 : forall i, 0 <= i < Z.of_nat (length kvs) ->
                     u32 (m_tableCount t1 + i) <> m_tableMax t1).
    { intros i Hi0. rewrite Hc, Hmax.
      assert (E : u32 (u32 (m_tableCount t + 1) + i) = u32 (m_tableCount t + (i + 1))).
      { unfold u32. rewrite Zplus_mod_idemp_l. f_equal. lia. }
      rewrite E. apply Hne. lia. }
    assert (Hf1 : forall x, In x (entries t1) -> ~ In (fst x) (map fst kvs)).
    { intros x Hx. apply (Permutation_in _ Hp) in Hx. destruct Hx as [<-|Hx]; [exact Hk|].
      intro Hin. apply (Hf x Hx). right. exact Hin. }
    destruct (IH t1 kind Hi1 Hne1 Hnd' Hf1) as (t' & Hr & Hi' & Hsz' & Hmax' & Hc' & Hl').
    exists t'. split; [|split; [exact Hi'|]].
    + simpl. rewrite Hs. simpl. exact Hr.
    + split; [congruence|]. split; [congruence|]. split.
      * rewrite Hc', Hc. unfold u32. rewrite Zplus_mod_idemp_l. f_equal. lia.
      * rewrite Hl', (Permutation_length Hp). simpl. lia.
Qed.

(** *** Iteration from [begin] *)

Lemma begin_null_iff : forall t, Inv t ->
  (it_node (NodeIterator_begin t) = [] <-> m_tableCount t = 0).
Proof.
  intros t Hi. unfold NodeIterator_begin.
  assert (H0 : 0 <= m_tableCount t) by (rewrite (inv_count t Hi); apply u32_range).
  pose proof (inv_count t Hi) as Hcnt. unfold entries in Hcnt.
  destruct (m_table t) as [b|] eqn:Hb.
  - destruct (Inv_Some t b Hi Hb) as [Hp [_ [Hlen _]]].
    assert (Hs : prime (m_tableSizeInfo t) = Z.of_nat (length b)) by lia.
    destruct (Z.ltb_spec 0 (m_tableCount t)) as [Hc|Hc].
    + pose proof (continue_wf b (prime (m_tableSizeInfo t)) 0 Hs ltac:(lia)) as W.
      cbv zeta in W. rewrite Z.sub_0_r in W. destruct W as [_ W].
      cbn [it_node] in W |- *. split; [|intro; lia]. intro E. rewrite E in W. simpl in W.
      rewrite W in Hcnt. cbn [length Z.of_nat] in Hcnt. unfold u32 in Hcnt. rewrite Z.mod_0_l in Hcnt by lia. exact Hcnt.
    + cbn [it_node]. split; [intros _; lia | reflexivity].
  - destruct (Inv_None t Hi Hb) as [_ [Hc _]]. rewrite Hc. simpl.
    split; intros _; reflexivity.
Qed.



(** ** Properties of further operations *)

(** [operator[]] on a table reached by operations that ran to completion
    returns the value stored for the key, and fails its assertion when the
    key is absent (including on a fresh table). *)
Theorem operator_index_contents : forall ops t k, run empty_table ops = Ok t ->
  operator_index t k = match spec_contents ops k with Some v => Ok v | None => Assert_failed end.
Proof.
  intros ops t k H. unfold operator_index. rewrite (LookupPointer_contents ops t k H). simpl.
  destruct (spec_contents ops k); reflexivity.
Qed.

(** [LookupPointer] and [FindNode] never fail on a reachable table (no
    failed assertion, no out-of-range read, also without a bucket array):
    [LookupPointer] gives the value stored for the key, [FindNode] the node
    holding the key itself. *)
Theorem LookupPointer_after_ops : forall ops t k, run empty_table ops = Ok t ->
  LookupPointer t k = Ok (spec_contents ops k)
  /\ FindNode t k = Ok (option_map (fun v => (k, v)) (spec_contents ops k)).
Proof.
  intros ops t k H. split; [exact (LookupPointer_contents ops t k H)|].
  destruct (run_empty_inv ops t H) as [Hi Habs]. rewrite (FindNode_entries t k Hi).
  destruct (spec_contents ops k) as [v|] eqn:E; simpl.
  - rewrite (proj1 (find_node_entries_In t k v Hi) (proj2 (Habs k v) E)). reflexivity.
  - destruct (find_node k (entries t)) as [n|] eqn:F; [|reflexivity].
    exfalso. destruct (find_node_Some k _ n F) as [Hin Hk]. destruct n as [kn vn].
    simpl in Hk. subst kn. apply Habs in Hin. congruence.
Qed.

(** [LookupPointerOrAdd] on a reachable table returns the value stored for
    the key if there is one, and otherwise adds the key with
    [defaultValue] and returns that; afterwards [LookupPointer] finds the
    returned value, every other key is looked up as before, and [GetCount]
    grows by one exactly when the key was added. *)
Theorem LookupPointerOrAdd_frame : forall ops t k d r t', run empty_table ops = Ok t ->
  LookupPointerOrAdd t k d = Ok (r, t') ->
  exists o, LookupPointer t k = Ok o
    /\ r = match o with Some v => v | None => d end
    /\ LookupPointer t' k = Ok (Some r)
    /\ (forall k', k' <> k -> LookupPointer t' k' = LookupPointer t k')
    /\ GetCount t' = match o with Some _ => GetCount t | None => u32 (GetCount t + 1) end.
Proof.
  intros ops t k d r t' H Hl. destruct (run_empty_inv ops t H) as [Hi _].
  destruct (LookupPointerOrAdd_lookups t k d r t' Hi Hl) as (o & H1 & H2 & H3 & H4 & _ & H6).
  exists o. auto.
Qed.

(** [Emplace] never replaces a stored value: on a reachable table, for a
    key already present it returns the stored value and every lookup and
    the count stay as they were; for an absent key it adds the key with
    the constructed value, and only that key's lookup changes. *)
Theorem Emplace_keeps_existing : forall ops t k v r t', run empty_table ops = Ok t ->
  Emplace t k v = Ok (r, t') ->
  (forall v0, LookupPointer t k = Ok (Some v0) ->
     r = v0 /\ GetCount t' = GetCount t /\ forall k', LookupPointer t' k' = LookupPointer t k')
  /\ (LookupPointer t k = Ok None ->
     r = v /\ LookupPointer t' k = Ok (Some v) /\ GetCount t' = u32 (GetCount t + 1)
     /\ forall k', k' <> k -> LookupPointer t' k' = LookupPointer t k').
Proof.
  intros ops t k v r t' H He. destruct (run_empty_inv ops t H) as [Hi _].
  rewrite Emplace_LookupPointerOrAdd in He.
  destruct (LookupPointerOrAdd_lookups t k v r t' Hi He) as (o & H1 & H2 & H3 & H4 & H5 & H6).
  split.
  - intros v0 Hv. rewrite Hv in H1. injection H1 as <-.
    split; [exact H2|]. split; [exact H6|]. apply H5. discriminate.
  - intro Hn. rewrite Hn in H1. injection H1 as <-. subst r.
    split; [reflexivity|]. split; [exact H3|]. split; [exact H6 | exact H4].
Qed.

(** [Set] on a reachable table returns true exactly when the key was
    present; afterwards [LookupPointer] finds the new value, every other key
    is looked up as before, and [GetCount] grows by one exactly when the key
    was added. *)
Theorem Set_frame : forall ops t k v kind r t', run empty_table ops = Ok t ->
  Set_ t k v kind = Ok (r, t') ->
  (r = true <-> exists v0, LookupPointer t k = Ok (Some v0))
  /\ LookupPointer t' k = Ok (Some v)
  /\ (forall k', k' <> k -> LookupPointer t' k' = LookupPointer t k')
  /\ GetCount t' = (if r then GetCount t else u32 (GetCount t + 1)).
Proof.
  intros ops t k v kind r t' H Hs. destruct (run_empty_inv ops t H) as [Hi _].
  destruct (Set_inv t k v kind r t' Hi Hs) as [Hi' [Hr Hm]].
  split; [|split; [|split]].
  - rewrite Hr. split; intros [v0 Hv]; exists v0.
    + exact (LookupPointer_present t k v0 Hi Hv).
    + exact (LookupPointer_some_In t k v0 Hi Hv).
  - apply (LookupPointer_present t' k v Hi'). apply Hm. left. reflexivity.
  - intros k' Hk'. apply LookupPointer_frame; [exact Hi | exact Hi'|].
    intro w. rewrite Hm. split.
    + intros [Ex|[_ Ex]]; [injection Ex as Ex _; congruence | exact Ex].
    + intro Ex. right. split; [exact Hk' | exact Ex].
  - unfold GetCount. exact (Set_count t k v kind r t' Hi Hs).
Qed.

(** [Remove] on a reachable table that has a bucket array always completes:
    it returns true exactly when the key was present; afterwards the key is
    absent, every other key is looked up as before, [GetCount] drops by one
    (in [unsigned]) exactly when a node was removed, and the bucket array
    keeps its size. *)
Theorem Remove_frame : forall ops t k, run empty_table ops = Ok t -> m_table t <> None ->
  exists r t', Remove t k = Ok (r, t')
    /\ (r = true <-> exists v, LookupPointer t k = Ok (Some v))
    /\ LookupPointer t' k = Ok None
    /\ (forall k', k' <> k -> LookupPointer t' k' = LookupPointer t k')
    /\ GetCount t' = (if r then u32 (GetCount t - 1) else GetCount t)
    /\ table_size t' = table_size t.
Proof.
  intros ops t k H Hb0. destruct (run_empty_inv ops t H) as [Hi _].
  destruct (m_table t) as [b|] eqn:Hb; [|contradiction].
  destruct (bucket_exists t b k Hi Hb) as [c [_ Hr]].
  assert (HR : exists r t', Remove t k = Ok (r, t')
                 /\ GetCount t' = (if r then u32 (GetCount t - 1) else GetCount t)).
  { unfold Remove. rewrite (GetIndexForKey_ok t b k Hi Hb). simpl. rewrite Hr. simpl.
    destruct (find_node k c); eexists _, _; split; reflexivity. }
  destruct HR as (r & t' & HR & Hcnt). exists r, t'. split; [exact HR|].
  destruct (Remove_inv t k r t' Hi HR) as [Hi' [Hr' [Hm _]]].
  split; [|split; [|split; [|split]]].
  - rewrite Hr'. split; intros [v Hv]; exists v.
    + exact (LookupPointer_present t k v Hi Hv).
    + exact (LookupPointer_some_In t k v Hi Hv).
  - apply (LookupPointer_absent t' k Hi'). intros v Hin. apply Hm in Hin.
    destruct Hin as [Hk _]. exact (Hk eq_refl).
  - intros k' Hk'. apply LookupPointer_frame; [exact Hi | exact Hi'|].
    intro w. rewrite Hm. split; [intros [_ Ex]; exact Ex | intro Ex; split; [exact Hk' | exact Ex]].
  - exact Hcnt.
  - rewrite (table_size_prime t' Hi'), (table_size_prime t Hi), (Remove_info t k r t' HR).
    reflexivity.
Qed.

(** [NextPrime(number)] scans the prime table in order: it returns the
    first entry whose prime is at least [number] (every entry before it is
    smaller), and it calls [NoMemory] exactly when every prime of the table
    is smaller than [number]. *)
Theorem NextPrime_first_fit : forall number,
  (forall e, NextPrime number = Ok e ->
     exists pre post, jitPrimeInfo = pre ++ e :: post /\ number <= prime e
       /\ forall e', In e' pre -> prime e' < number)
  /\ (NextPrime number = No_memory <-> forall e, In e jitPrimeInfo -> prime e < number).
Proof. intro number. exact (NextPrime_from_first jitPrimeInfo number). Qed.

(** [Reallocate(newTableSize)] on a reachable table: below
    [GetCount() * dden / dnum] it fails its assertion; otherwise it calls
    [NoMemory] when no prime of the table is large enough, and else
    installs [NextPrime(newTableSize)] as the size, with the count kept and
    the threshold [prime * dnum / dden]. *)
Theorem Reallocate_outcomes : forall ops t newTableSize, run empty_table ops = Ok t ->
  let bound := u32 (GetCount t * s_density_factor_denominator Beh) / s_density_factor_numerator Beh in
  (newTableSize < bound -> Reallocate t newTableSize = Assert_failed)
  /\ (bound <= newTableSize -> NextPrime newTableSize = No_memory ->
      Reallocate t newTableSize = No_memory)
  /\ (forall e, bound <= newTableSize -> NextPrime newTableSize = Ok e ->
      exists t', Reallocate t newTableSize = Ok t' /\ m_tableSizeInfo t' = e
        /\ table_size t' = prime e /\ GetCount t' = GetCount t
        /\ m_tableMax t' = u32 (prime e * s_density_factor_numerator Beh)
                           / s_density_factor_denominator Beh).
Proof.
  intros ops t n H bound. destruct (run_empty_inv ops t H) as [Hi _].
  unfold bound, GetCount. split; [|split].
  - intro Hlt. unfold Reallocate, assert_.
    replace (_ <=? n) with false by (symmetry; apply Z.leb_gt; exact Hlt). reflexivity.
  - intros Hle Hn. unfold Reallocate, assert_.
    replace (_ <=? n) with true by (symmetry; apply Z.leb_le; exact Hle). simpl.
    rewrite Hn. reflexivity.
  - intros e Hle He.
    destruct (Reallocate_ok t n e Hi Hle He) as (t' & Hr & Hi' & _ & Hs & Hc & Hm).
    exists t'. split; [exact Hr|]. split; [exact Hs|].
    split; [rewrite (table_size_prime t' Hi'), Hs; reflexivity|]. split; [exact Hc | exact Hm].
Qed.

(** [CheckGrowth] tests [m_tableCount == m_tableMax], not [>=]: once a
    reachable table holds more keys than its threshold (an explicit
    [Reallocate] to a small prime can do that), [Set] of new keys does not
    grow the bucket array until the [unsigned] count, wrapping around at
    [2^32], comes back to the threshold: up to [2^32 - GetCount() +
    m_tableMax] new keys go into the same bucket array, and the count ends
    at the old count plus their number, modulo [2^32]. *)
Theorem no_growth_past_threshold : forall ops t kind kvs, run empty_table ops = Ok t ->
  m_tableMax t < GetCount t -> GetCount t + Z.of_nat (length kvs) <= 2 ^ 32 + m_tableMax t ->
  NoDup (map fst kvs) -> (forall k, In k (map fst kvs) -> LookupPointer t k = Ok None) ->
  exists t', run t (map (fun kv => op_Set (fst kv) (snd kv) kind) kvs) = Ok t'
    /\ m_tableSizeInfo t' = m_tableSizeInfo t /\ table_size t' = table_size t
    /\ m_tableMax t' = m_tableMax t
    /\ GetCount t' = u32 (GetCount t + Z.of_nat (length kvs)).
Proof.
  intros ops t kind kvs H Hlt Hb Hnd Hf. destruct (run_empty_inv ops t H) as [Hi _].
  unfold GetCount in *.
  assert (Hne : forall i, 0 <= i < Z.of_nat (length kvs) ->
                  u32 (m_tableCount t + i) <> m_tableMax t).
  { intros i Hi0 E. unfold u32 in E. Z.div_mod_to_equations. lia. }
  assert (Hfr : forall x, In x (entries t) -> ~ In (fst x) (map fst kvs)).
  { intros [k v] Hx Hin. exact (LookupPointer_none t k v Hi (Hf k Hin) Hx). }
  destruct (Sets_no_growth kvs t kind Hi Hne Hnd Hfr) as (t' & Hr & Hi' & Hs & Hm & Hc & _).
  exists t'. split; [exact Hr|]. split; [exact Hs|].
  split; [rewrite (table_size_prime t' Hi'), (table_size_prime t Hi), Hs; reflexivity|].
  split; [exact Hm | exact Hc].
Qed.

(** The range-based [for] over a reachable table starts with a null node,
    the same as [end()], exactly when [GetCount()] is 0; advancing the end
    iterator has no effect. *)
Theorem iterator_begin_end : forall ops t, run empty_table ops = Ok t ->
  (it_node (NodeIterator_begin t) = [] <-> GetCount t = 0)
  /\ it_node (NodeIterator_end t) = []
  /\ Next (NodeIterator_end t) = NodeIterator_end t.
Proof.
  intros ops t H. destruct (run_empty_inv ops t H) as [Hi _].
  split; [exact (begin_null_iff t Hi)|]. split; [reflexivity|].
  unfold Next, NodeIterator_end. cbn [it_node it_table it_tableSize it_index].
  rewrite Z.sub_diag. cbn [Z.to_nat skip_empty]. unfold node_at. rewrite Z.ltb_irrefl.
  reflexivity.
Qed.

(** ** With the default behavior *)

Section Growth_default.

Hypothesis HB : Beh = JitHashTableBehavior.

Lemma GrowSize_default : forall c, 0 <= c <= 715827882 ->
  GrowSize c = Z.max 7 (c * 3 / 2 * 4 / 3).
Proof.
  intros c Hc. unfold GrowSize. rewrite HB. cbn [s_growth_factor_numerator
    s_growth_factor_denominator s_density_factor_denominator s_density_factor_numerator
    s_minimum_allocation JitHashTableBehavior]. unfold u32.
  rewrite (Z.mod_small (c * 3)) by lia.
  rewrite (Z.mod_small (c * 3 / 2 * 4)) by (Z.div_mod_to_equations; lia).
  destruct (Z.ltb_spec (c * 3 / 2 * 4 / 3) 7); [rewrite Z.max_l by lia | rewrite Z.max_r by lia];
    reflexivity.
Qed.

Lemma GrowSize_bounds : forall c, 0 <= c <= 715827882 ->
  c <= GrowSize c /\ u32 (c * 4) / 3 <= GrowSize c.
Proof.
  intros c Hc. rewrite (GrowSize_default c Hc). unfold u32.
  rewrite (Z.mod_small (c * 4)) by lia.
  split; apply Z.max_le_iff.
  - destruct (Z.leb_spec c 7); [left; lia | right; Z.div_mod_to_equations; lia].
  - destruct (Z.leb_spec c 1); [left | right]; Z.div_mod_to_equations; lia.
Qed.


(** With the default behavior, [Grow]'s overflow check never fires for a
    count up to 715827882: the size it requests is
    [max 7 (count * 3 / 2 * 4 / 3)], at least the count; for every count
    from 715827883 to 1431655765 the product [* 4] wraps around in
    [unsigned] and [Grow] calls [NoMemory]. *)
Theorem Grow_overflow_default : forall t,
  (0 <= m_tableCount t <= 715827882 ->
     GrowSize (m_tableCount t) = Z.max 7 (m_tableCount t * 3 / 2 * 4 / 3)
     /\ m_tableCount t <= GrowSize (m_tableCount t)
     /\ Grow t = Reallocate t (GrowSize (m_tableCount t)))
  /\ (715827883 <= m_tableCount t <= 1431655765 -> Grow t = No_memory).
Proof.
  intro t. split.
  - intro Hc. destruct (GrowSize_bounds (m_tableCount t) Hc) as [G1 _].
    split; [exact (GrowSize_default _ Hc)|]. split; [exact G1|].
    unfold Grow. replace (_ <? _) with false by (symmetry; apply Z.ltb_ge; exact G1).
    reflexivity.
  - intro Hc. unfold Grow, GrowSize. rewrite HB. cbn [s_growth_factor_numerator
      s_growth_factor_denominator s_density_factor_denominator s_density_factor_numerator
      s_minimum_allocation JitHashTableBehavior].
    set (c := m_tableCount t) in *.
    assert (Hn : u32 (u32 (c * 3) / 2 * 4) / 3 < 7 \/ u32 (u32 (c * 3) / 2 * 4) / 3 < c).
    { right. unfold u32. Z.div_mod_to_equations. lia. }
    destruct (Z.ltb_spec (u32 (u32 (c * 3) / 2 * 4) / 3) 7).
    + replace (7 <? c) with true by (symmetry; apply Z.ltb_lt; lia). reflexivity.
    + replace (_ <? c) with true by (symmetry; apply Z.ltb_lt; lia). reflexivity.
Qed.


End Growth_default.

End JitHashTable.

(** * Exactness of the magic-number division

    The criterion of Hacker's Delight for unsigned division by a constant:
    when [2^(32+s) <= magic * p <= 2^(32+s) + 2^s], the shifted product is
    the quotient for every 32-bit numerator. *)

Lemma magic_div_exact : forall p m s x, 0 < p -> 0 <= s ->
  2 ^ (32 + s) <= m * p <= 2 ^ (32 + s) + 2 ^ s -> 0 <= x < 2 ^ 32 ->
  x * m / 2 ^ (32 + s) = x / p.
Proof.
  intros p m s x Hp Hs Hc Hx.
  rewrite Z.pow_add_r in * by lia.
  assert (HB : 0 < 2 ^ s) by (apply Z.pow_pos_nonneg; lia).
  set (B := 2 ^ s) in *. set (N := 2 ^ 32 * B).
  pose proof (Z.div_mod x p ltac:(lia)) as Hd. pose proof (Z.mod_pos_bound x p Hp) as Hr.
  set (q := x / p) in *. set (r := x mod p) in *.
  symmetry. apply (Z.div_unique_pos _ _ _ (x * m - N * q)); [|ring].
  assert (E : p * (x * m - N * q) = x * (m * p) - N * (x - r)).
  { replace (x - r) with (p * q) by lia. ring. }
  assert (H1 : x * N <= x * (m * p)) by (apply Z.mul_le_mono_nonneg_l; lia).
  assert (H2 : x * (m * p) <= x * (N + B)) by (apply Z.mul_le_mono_nonneg_l; lia).
  assert (H3 : x * B < 2 ^ 32 * B) by (apply Z.mul_lt_mono_pos_r; lia).
  assert (H4 : N * (r + 1) <= N * p) by (apply Z.mul_le_mono_nonneg_l; lia).
  assert (H5 : 0 <= N * r) by (apply Z.mul_nonneg_nonneg; lia).
  split.
  - apply (Z.mul_le_mono_pos_l _ _ p Hp). lia.
  - apply (Z.mul_lt_mono_pos_l p _ _ Hp). lia.
Qed.

Lemma magic_exact : forall e, 0 < prime e -> 0 <= shift e ->
  2 ^ (32 + shift e) <= magic e * prime e <= 2 ^ (32 + shift e) + 2 ^ shift e ->
  forall x, 0 <= x < 2 ^ 32 -> magicNumberRem_value e x = x mod prime e.
Proof.
  intros e Hp Hs Hc x Hx. unfold magicNumberRem_value, magicNumberDivide.
  rewrite Z.shiftr_div_pow2 by lia.
  rewrite (magic_div_exact (prime e) (magic e) (shift e) x Hp Hs Hc Hx).
  pose proof (Z.mod_pos_bound x (prime e) Hp) as Hr.
  assert (Hq : 0 <= x / prime e <= x).
  { split; [apply Z.div_pos; lia|]. apply Z.div_le_upper_bound; nia. }
  unfold u32. rewrite (Z.mod_small (x / prime e)) by lia.
  rewrite (Z.mod_eq x (prime e)) in * by lia.
  replace (x - x / prime e * prime e) with (x - prime e * (x / prime e)) by ring.
  apply Z.mod_small. lia.
Qed.

Lemma sample_primes_exact : forall e x, In e sample_primes -> 0 <= x < 2 ^ 32 ->
  magicNumberRem_value e x = x mod prime e.
Proof.
  intros e x He Hx.
  simpl in He. repeat destruct He as [<-|He]; try contradiction;
    apply magic_exact; simpl; try lia; assumption.
Qed.

Lemma sample_primes_range : forall e, In e sample_primes -> 0 < prime e < 2 ^ 32.
Proof. intros e He. simpl in He. repeat destruct He as [<-|He]; simpl; lia. Qed.

Lemma sample_primes_small : forall e, In e sample_primes -> 3 * prime e < 2 ^ 32.
Proof. intros e He. simpl in He. repeat destruct He as [<-|He]; simpl; lia. Qed.

Lemma sample_primes5_exact : forall e x, In e sample_primes5 -> 0 <= x < 2 ^ 32 ->
  magicNumberRem_value e x = x mod prime e.
Proof.
  intros e x He Hx. destruct He as [<-|He].
  - apply magic_exact; simpl; try lia; assumption.
  - exact (sample_primes_exact e x He Hx).
Qed.

Lemma sample_primes5_range : forall e, In e sample_primes5 -> 0 < prime e < 2 ^ 32.
Proof. intros e [<-|He]; [simpl; lia | exact (sample_primes_range e He)]. Qed.



(** * Magic-number division and the KeyFuncs hash functions *)

(** [magicNumberDivide] is the quotient and [magicNumberRem] returns the
    remainder, its assertion holding, for every 32-bit numerator, as soon as
    the entry meets [2^(32+shift) <= magic * prime <= 2^(32+shift) + 2^shift]. *)
Theorem magicNumberRem_exact : forall e, 0 < prime e -> 0 <= shift e ->
  2 ^ (32 + shift e) <= magic e * prime e <= 2 ^ (32 + shift e) + 2 ^ shift e ->
  forall numerator, 0 <= numerator < 2 ^ 32 ->
  magicNumberDivide e numerator = numerator / prime e
  /\ magicNumberRem e numerator = Ok (numerator mod prime e).
Proof.
  intros e Hp Hs Hc x Hx. split.
  - unfold magicNumberDivide. rewrite Z.shiftr_div_pow2 by lia.
    rewrite (magic_div_exact (prime e) (magic e) (shift e) x Hp Hs Hc Hx).
    assert (Hq : 0 <= x / prime e <= x).
    { split; [apply Z.div_pos; lia|]. apply Z.div_le_upper_bound; nia. }
    unfold u32. apply Z.mod_small. lia.
  - unfold magicNumberRem. rewrite (magic_exact e Hp Hs Hc x Hx).
    replace (prime e =? 0) with false by (symmetry; apply Z.eqb_neq; lia).
    rewrite Z.eqb_refl. reflexivity.
Qed.

Lemma u32_eq_iff : forall a b, u32 a = u32 b <-> (a - b) mod 2 ^ 32 = 0.
Proof.
  intros a b. unfold u32. rewrite Zminus_mod.
  pose proof (Z.mod_pos_bound a (2 ^ 32) ltac:(lia)) as Ha.
  pose proof (Z.mod_pos_bound b (2 ^ 32) ltac:(lia)) as Hb.
  set (x := a mod 2 ^ 32) in *. set (y := b mod 2 ^ 32) in *. clearbody x y.
  split.
  - intros ->. rewrite Z.sub_diag. reflexivity.
  - intro H. Z.div_mod_to_equations. lia.
Qed.

(** [JitPtrKeyFuncs::GetHashCode] and [JitSmallPrimitiveKeyFuncs::GetHashCode]
    give two keys the same hash exactly when they differ by a multiple of
    [2^32]; in particular two distinct addresses less than 4 GB apart never
    share a hash. *)
Theorem static_cast_hash_collisions : forall a b,
  (JitPtrKeyFuncs_GetHashCode a = JitPtrKeyFuncs_GetHashCode b <-> (a - b) mod 2 ^ 32 = 0)
  /\ (JitSmallPrimitiveKeyFuncs_GetHashCode a = JitSmallPrimitiveKeyFuncs_GetHashCode b
      <-> (a - b) mod 2 ^ 32 = 0)
  /\ (a <> b -> Z.abs (a - b) < 2 ^ 32 ->
      JitPtrKeyFuncs_GetHashCode a <> JitPtrKeyFuncs_GetHashCode b).
Proof.
  intros a b. split; [exact (u32_eq_iff a b)|]. split; [exact (u32_eq_iff a b)|].
  intros Hne Hd Heq. apply (u32_eq_iff a b) in Heq. Z.div_mod_to_equations. lia.
Qed.

Lemma lxor_u32_range : forall a b, 0 <= a < 2 ^ 32 -> 0 <= b < 2 ^ 32 ->
  0 <= Z.lxor a b < 2 ^ 32.
Proof.
  intros a b Ha Hb.
  assert (Hn : 0 <= Z.lxor a b) by (apply Z.lxor_nonneg; lia).
  split; [exact Hn|].
  destruct (Z.eq_dec (Z.lxor a b) 0) as [->|Hz]; [lia|].
  apply Z.log2_lt_pow2; [lia|].
  pose proof (Z.log2_lxor a b ltac:(lia) ltac:(lia)) as Hl.
  assert (Ha' : Z.log2 a < 32).
  { destruct (Z.eq_dec a 0) as [->|]; [simpl; lia | apply Z.log2_lt_pow2; lia]. }
  assert (Hb' : Z.log2 b < 32).
  { destruct (Z.eq_dec b 0) as [->|]; [simpl; lia | apply Z.log2_lt_pow2; lia]. }
  lia.
Qed.

Lemma large8_value : forall val x, 0 <= x < 2 ^ 64 ->
  JitLargePrimitiveKeyFuncs_GetHashCode 8 val x = Ok (Z.lxor (x / 2 ^ 32) (x mod 2 ^ 32)).
Proof.
  intros val x Hx. unfold JitLargePrimitiveKeyFuncs_GetHashCode. rewrite Z.eqb_refl.
  change 4294967295 with (Z.ones 32). rewrite Z.land_ones by lia.
  rewrite Z.shiftr_div_pow2 by lia. unfold u32.
  rewrite (Z.mod_small (x / 2 ^ 32)) by (split; [apply Z.div_pos; lia | apply Z.div_lt_upper_bound; lia]).
  rewrite Z.mod_mod by lia. reflexivity.
Qed.

(** [JitLargePrimitiveKeyFuncs::GetHashCode] of an 8-byte key is the
    exclusive or of the two 32-bit halves of its representation: it lies in
    [unsigned] range, is the same for the key with its halves swapped, and
    is 0 exactly when both halves are equal. *)
Theorem JitLargePrimitiveKeyFuncs_halves : forall val val' bits, 0 <= bits < 2 ^ 64 ->
  exists h, JitLargePrimitiveKeyFuncs_GetHashCode 8 val bits = Ok h
    /\ 0 <= h < 2 ^ 32
    /\ JitLargePrimitiveKeyFuncs_GetHashCode 8 val' (bits mod 2 ^ 32 * 2 ^ 32 + bits / 2 ^ 32) = Ok h
    /\ (h = 0 <-> bits / 2 ^ 32 = bits mod 2 ^ 32).
Proof.
  intros val val' bits Hb.
  assert (Hhi : 0 <= bits / 2 ^ 32 < 2 ^ 32).
  { split; [apply Z.div_pos; lia | apply Z.div_lt_upper_bound; lia]. }
  assert (Hlo : 0 <= bits mod 2 ^ 32 < 2 ^ 32) by (apply Z.mod_pos_bound; lia).
  set (hi := bits / 2 ^ 32) in *. set (lo := bits mod 2 ^ 32) in *.
  exists (Z.lxor hi lo). split; [exact (large8_value val bits Hb)|].
  split; [apply lxor_u32_range; assumption|]. split.
  - rewrite (large8_value val' (lo * 2 ^ 32 + hi)) by lia.
    rewrite Z.div_add_l by lia. rewrite (Z.div_small hi) by lia. rewrite Z.add_0_r.
    rewrite Z.add_comm, Z.mod_add by lia. rewrite Z.mod_small by lia.
    rewrite Z.lxor_comm. reflexivity.
  - apply Z.lxor_eq_0_iff.
Qed.

(** * Concrete runs

    Keys and values are integers, the hash of a key is the key itself, and
    the prime table is [sample_primes]. *)

Lemma Lookup_after_ops_witness :
  exists t, run Z Z (fun z => z) Z.eqb JitHashTableBehavior sample_primes (empty_table Z Z)
              [op_Set Z Z 1 10 SetKind_None; op_Set Z Z 2 20 SetKind_None;
               op_Set Z Z 1 11 Overwrite] = Ok t
    /\ Lookup Z Z (fun z => z) Z.eqb t 1 (Some 0) = Ok (true, Some 11).
Proof.
  eexists. split; [reflexivity|].
  apply (Lookup_after_ops Z Z (fun z => z) Z.eqb JitHashTableBehavior sample_primes
           Z.eqb_eq sample_primes_range sample_primes_exact
           [op_Set Z Z 1 10 SetKind_None; op_Set Z Z 2 20 SetKind_None;
            op_Set Z Z 1 11 Overwrite]); reflexivity.
Defined.

Lemma rehash_lossless_witness :
  exists t, run Z Z (fun z => z) Z.eqb JitHashTableBehavior sample_primes (empty_table Z Z)
              [op_Set Z Z 1 10 SetKind_None; op_Set Z Z 2 20 SetKind_None] = Ok t
    /\ exists t', Reallocate Z Z (fun z => z) JitHashTableBehavior sample_primes t 40 = Ok t'
    /\ Permutation (entries Z Z t') (entries Z Z t) /\ GetCount Z Z t' = GetCount Z Z t
    /\ (forall k pv, Lookup Z Z (fun z => z) Z.eqb t' k pv = Lookup Z Z (fun z => z) Z.eqb t k pv).
Proof.
  eexists. split; [reflexivity|]. eexists. split; [reflexivity|].
  apply (rehash_lossless Z Z (fun z => z) Z.eqb JitHashTableBehavior sample_primes
           Z.eqb_eq sample_primes_range sample_primes_exact
           [op_Set Z Z 1 10 SetKind_None; op_Set Z Z 2 20 SetKind_None]).
  - reflexivity.
  - left. exists 40. reflexivity.
Defined.

Lemma six_inserts_growth_witness :
  exists t6, GetCount Z Z t6 = 6
    /\ Lookup Z Z (fun z => z) Z.eqb t6 1 (Some 0) = Ok (true, Some 10)
    /\ Lookup Z Z (fun z => z) Z.eqb t6 6 (Some 0) = Ok (true, Some 60).
Proof.
  destruct (six_inserts_growth Z Z (fun z => z) Z.eqb JitHashTableBehavior sample_primes
              Z.eqb_eq sample_primes_range sample_primes_exact eq_refl sample_primes_small)
    with (k1 := 1) (k2 := 2) (k3 := 3) (k4 := 4) (k5 := 5) (k6 := 6)
         (v1 := 10) (v2 := 20) (v3 := 30) (v4 := 40) (v5 := 50) (v6 := 60)
    as (p0 & t1 & t2 & t3 & t4 & t5 & t6 & H).
  - exists (mkJitPrimeInfo 11 3123612579 3). split; [simpl; auto | simpl; lia].
  - repeat constructor; simpl; lia.
  - exists t6. destruct H as (_ & _ & _ & _ & _ & _ & _ & _ & _ & _ & _ & _ & _ & _ & _ & _
                             & _ & _ & Hc & Hl).
    split; [exact Hc|]. split.
    + apply (Hl (1, 10)). simpl. auto.
    + apply (Hl (6, 60)). simpl. auto 7.
Defined.

Lemma GetCount_stored_keys_witness :
  exists t, run Z Z (fun z => z) Z.eqb JitHashTableBehavior sample_primes (empty_table Z Z)
              [op_Set Z Z 1 10 SetKind_None; op_Set Z Z 2 20 SetKind_None; op_Remove Z Z 1;
               op_Set Z Z 1 11 SetKind_None] = Ok t
    /\ GetCount Z Z t = 2
    /\ (exists ks, NoDup ks
          /\ (forall k, In k ks <->
                spec_contents Z Z Z.eqb
                  [op_Set Z Z 1 10 SetKind_None; op_Set Z Z 2 20 SetKind_None; op_Remove Z Z 1;
                   op_Set Z Z 1 11 SetKind_None] k <> None)
          /\ GetCount Z Z t = u32 (Z.of_nat (length ks))).
Proof.
  eexists. split; [reflexivity|]. split; [reflexivity|].
  apply (GetCount_stored_keys Z Z (fun z => z) Z.eqb JitHashTableBehavior sample_primes
           Z.eqb_eq sample_primes_range sample_primes_exact
           [op_Set Z Z 1 10 SetKind_None; op_Set Z Z 2 20 SetKind_None; op_Remove Z Z 1;
            op_Set Z Z 1 11 SetKind_None]).
  reflexivity.
Defined.

Lemma Remove_without_array_witness :
  exists t, run Z Z (fun z => z) Z.eqb JitHashTableBehavior sample_primes (empty_table Z Z)
              [op_Set Z Z 1 10 SetKind_None] = Ok t
    /\ Remove Z Z (fun z => z) Z.eqb t 5 = Ok (false, t)
    /\ Remove Z Z (fun z => z) Z.eqb (RemoveAll Z Z t) 5 = Undefined.
Proof.
  eexists. split; [reflexivity|].
  destruct (Remove_without_array Z Z (fun z => z) Z.eqb JitHashTableBehavior sample_primes
              Z.eqb_eq sample_primes_range sample_primes_exact
              [op_Set Z Z 1 10 SetKind_None] _ 5 eq_refl) as [H1 [H2 _]].
  split; [apply H1; [discriminate | reflexivity] | exact H2].
Defined.

Lemma bucket_array_size_witness :
  exists t, run Z Z (fun z => z) Z.eqb JitHashTableBehavior sample_primes (empty_table Z Z)
              [op_Set Z Z 1 10 SetKind_None] = Ok t
    /\ (exists e, In e sample_primes /\ table_size Z Z t = prime e)
    /\ (forall t', exec Z Z (fun z => z) Z.eqb JitHashTableBehavior sample_primes t
                     (op_Set Z Z 2 20 SetKind_None) = Ok t' ->
                   table_size Z Z t <= table_size Z Z t').
Proof.
  eexists. split; [reflexivity|].
  destruct (bucket_array_size Z Z (fun z => z) Z.eqb JitHashTableBehavior sample_primes
              Z.eqb_eq sample_primes_range sample_primes_exact eq_refl sample_primes_small
              [op_Set Z Z 1 10 SetKind_None] _ eq_refl) as [H1 H2].
  split; [exact H1|]. intros t' H. apply (H2 _ t' H); discriminate.
Defined.

Lemma Set_cases_witness :
  exists t, run Z Z (fun z => z) Z.eqb JitHashTableBehavior sample_primes (empty_table Z Z)
              [op_Set Z Z 1 10 SetKind_None] = Ok t
    /\ Set_ Z Z (fun z => z) Z.eqb JitHashTableBehavior sample_primes t 1 20 SetKind_None
       = Assert_failed
    /\ exists t1, CheckGrowth Z Z (fun z => z) JitHashTableBehavior sample_primes t = Ok t1
    /\ exists b c, m_table Z Z t1 = Some b
    /\ nth_error b (Z.to_nat (index_of Z (fun z => z) (prime (m_tableSizeInfo Z Z t1)) 2)) = Some c
    /\ Set_ Z Z (fun z => z) Z.eqb JitHashTableBehavior sample_primes t 2 20 SetKind_None =
       Ok (false, with_count Z Z
                    (write_bucket Z Z t1 (index_of Z (fun z => z) (prime (m_tableSizeInfo Z Z t1)) 2)
                       ((2, 20) :: c)) (u32 (GetCount Z Z t + 1))).
Proof.
  eexists. split; [reflexivity|]. split.
  - destruct (Set_cases Z Z (fun z => z) Z.eqb JitHashTableBehavior sample_primes
                Z.eqb_eq sample_primes_range sample_primes_exact
                [op_Set Z Z 1 10 SetKind_None] _ _ 1 20 SetKind_None eq_refl eq_refl)
      as (b & c & _ & _ & _ & _ & Hp & _).
    apply (proj1 (Hp (ex_intro _ 10 (or_introl eq_refl)))). reflexivity.
  - eexists. split; [reflexivity|].
    destruct (Set_cases Z Z (fun z => z) Z.eqb JitHashTableBehavior sample_primes
                Z.eqb_eq sample_primes_range sample_primes_exact
                [op_Set Z Z 1 10 SetKind_None] _ _ 2 20 SetKind_None eq_refl eq_refl)
      as (b & c & Hb & Hc & _ & _ & _ & Ha).
    exists b, c. split; [exact Hb|]. split; [exact Hc|].
    apply Ha. intros v0 Hv. simpl in Hv. destruct Hv as [Hv|[]]. discriminate.
Defined.


Lemma Lookup_absent_frame_witness :
  exists t, run Z Z (fun z => z) Z.eqb JitHashTableBehavior sample_primes (empty_table Z Z)
              [op_Set Z Z 1 10 SetKind_None] = Ok t
    /\ Lookup Z Z (fun z => z) Z.eqb t 2 (Some 7) = Ok (false, Some 7)
    /\ Lookup Z Z (fun z => z) Z.eqb t 1 None = Ok (true, None).
Proof.
  eexists. split; [reflexivity|]. split.
  - apply (Lookup_absent_frame Z Z (fun z => z) Z.eqb JitHashTableBehavior sample_primes
             Z.eqb_eq sample_primes_range sample_primes_exact
             [op_Set Z Z 1 10 SetKind_None] _ 2 (Some 7) eq_refl). reflexivity.
  - apply (Lookup_absent_frame Z Z (fun z => z) Z.eqb JitHashTableBehavior sample_primes
             Z.eqb_eq sample_primes_range sample_primes_exact
             [op_Set Z Z 1 10 SetKind_None] _ 1 None eq_refl).
Defined.

Lemma operator_index_contents_witness :
  exists t, run Z Z (fun z => z) Z.eqb JitHashTableBehavior sample_primes (empty_table Z Z)
              [op_Set Z Z 1 10 SetKind_None] = Ok t
    /\ operator_index Z Z (fun z => z) Z.eqb t 1 = Ok 10
    /\ operator_index Z Z (fun z => z) Z.eqb t 2 = Assert_failed.
Proof.
  eexists. split; [reflexivity|]. split.
  - exact (operator_index_contents Z Z (fun z => z) Z.eqb JitHashTableBehavior sample_primes
              Z.eqb_eq sample_primes_range sample_primes_exact
             [op_Set Z Z 1 10 SetKind_None] _ 1 eq_refl).
  - exact (operator_index_contents Z Z (fun z => z) Z.eqb JitHashTableBehavior sample_primes
              Z.eqb_eq sample_primes_range sample_primes_exact
             [op_Set Z Z 1 10 SetKind_None] _ 2 eq_refl).
Defined.

Lemma LookupPointer_after_ops_witness :
  exists t, run Z Z (fun z => z) Z.eqb JitHashTableBehavior sample_primes (empty_table Z Z)
              [op_Set Z Z 1 10 SetKind_None; op_Set Z Z 2 20 SetKind_None; op_Remove Z Z 1] = Ok t
    /\ LookupPointer Z Z (fun z => z) Z.eqb t 1 = Ok None
    /\ FindNode Z Z (fun z => z) Z.eqb t 2 = Ok (Some (2, 20)).
Proof.
  eexists. split; [reflexivity|]. split.
  - exact (proj1 (LookupPointer_after_ops Z Z (fun z => z) Z.eqb JitHashTableBehavior sample_primes
              Z.eqb_eq sample_primes_range sample_primes_exact
             [op_Set Z Z 1 10 SetKind_None; op_Set Z Z 2 20 SetKind_None; op_Remove Z Z 1]
             _ 1 eq_refl)).
  - exact (proj2 (LookupPointer_after_ops Z Z (fun z => z) Z.eqb JitHashTableBehavior sample_primes
              Z.eqb_eq sample_primes_range sample_primes_exact
             [op_Set Z Z 1 10 SetKind_None; op_Set Z Z 2 20 SetKind_None; op_Remove Z Z 1]
             _ 2 eq_refl)).
Defined.

Lemma LookupPointerOrAdd_frame_witness :
  exists t r t', run Z Z (fun z => z) Z.eqb JitHashTableBehavior sample_primes (empty_table Z Z)
              [op_Set Z Z 1 10 SetKind_None] = Ok t
    /\ LookupPointerOrAdd Z Z (fun z => z) Z.eqb JitHashTableBehavior sample_primes t 2 99
       = Ok (r, t')
    /\ r = 99
    /\ LookupPointer Z Z (fun z => z) Z.eqb t' 2 = Ok (Some r)
    /\ LookupPointer Z Z (fun z => z) Z.eqb t' 1 = LookupPointer Z Z (fun z => z) Z.eqb t 1.
Proof.
  do 3 eexists. split; [reflexivity|]. split; [reflexivity|]. split; [reflexivity|].
  destruct (LookupPointerOrAdd_frame Z Z (fun z => z) Z.eqb JitHashTableBehavior sample_primes
              Z.eqb_eq sample_primes_range sample_primes_exact
              [op_Set Z Z 1 10 SetKind_None] _ 2 99 _ _ eq_refl eq_refl)
    as (o & _ & _ & H3 & H4 & _).
  split; [exact H3 | apply H4; discriminate].
Defined.

Lemma Emplace_keeps_existing_witness :
  exists t r t', run Z Z (fun z => z) Z.eqb JitHashTableBehavior sample_primes (empty_table Z Z)
              [op_Set Z Z 1 10 SetKind_None] = Ok t
    /\ Emplace Z Z (fun z => z) Z.eqb JitHashTableBehavior sample_primes t 1 55 = Ok (r, t')
    /\ r = 10 /\ GetCount Z Z t' = GetCount Z Z t
    /\ LookupPointer Z Z (fun z => z) Z.eqb t' 1 = Ok (Some 10).
Proof.
  do 3 eexists. split; [reflexivity|]. split; [reflexivity|].
  destruct (Emplace_keeps_existing Z Z (fun z => z) Z.eqb JitHashTableBehavior sample_primes
              Z.eqb_eq sample_primes_range sample_primes_exact
              [op_Set Z Z 1 10 SetKind_None] _ 1 55 _ _ eq_refl eq_refl) as [H1 _].
  destruct (H1 10 eq_refl) as (Hr & Hc & Hl).
  split; [exact Hr|]. split; [exact Hc|]. etransitivity; [exact (Hl 1) | reflexivity].
Defined.

Lemma Set_frame_witness :
  exists t r t', run Z Z (fun z => z) Z.eqb JitHashTableBehavior sample_primes (empty_table Z Z)
              [op_Set Z Z 1 10 SetKind_None] = Ok t
    /\ Set_ Z Z (fun z => z) Z.eqb JitHashTableBehavior sample_primes t 1 11 Overwrite = Ok (r, t')
    /\ r = true /\ LookupPointer Z Z (fun z => z) Z.eqb t' 1 = Ok (Some 11).
Proof.
  do 3 eexists. split; [reflexivity|]. split; [reflexivity|].
  destruct (Set_frame Z Z (fun z => z) Z.eqb JitHashTableBehavior sample_primes
              Z.eqb_eq sample_primes_range sample_primes_exact
              [op_Set Z Z 1 10 SetKind_None] _ 1 11 Overwrite _ _ eq_refl eq_refl)
    as (Hr & Hl & _ & _).
  split; [apply Hr; exists 10; reflexivity | exact Hl].
Defined.

Lemma Remove_frame_witness :
  exists t, run Z Z (fun z => z) Z.eqb JitHashTableBehavior sample_primes (empty_table Z Z)
              [op_Set Z Z 1 10 SetKind_None; op_Set Z Z 2 20 SetKind_None] = Ok t
    /\ exists r t', Remove Z Z (fun z => z) Z.eqb t 1 = Ok (r, t') /\ r = true
    /\ LookupPointer Z Z (fun z => z) Z.eqb t' 1 = Ok None /\ GetCount Z Z t' = 1.
Proof.
  eexists. split; [reflexivity|].
  destruct (Remove_frame Z Z (fun z => z) Z.eqb JitHashTableBehavior sample_primes
              Z.eqb_eq sample_primes_range sample_primes_exact
              [op_Set Z Z 1 10 SetKind_None; op_Set Z Z 2 20 SetKind_None] _ 1 eq_refl
              ltac:(discriminate)) as (r & t' & HR & Hr & Hl & _ & Hc & _).
  assert (Er : r = true) by (apply Hr; exists 10; reflexivity).
  exists r, t'. split; [exact HR|]. split; [exact Er|]. split; [exact Hl|].
  rewrite Hc, Er. reflexivity.
Defined.

Lemma Reallocate_outcomes_witness :
  exists t, run Z Z (fun z => z) Z.eqb JitHashTableBehavior sample_primes (empty_table Z Z)
              [op_Set Z Z 1 10 SetKind_None; op_Set Z Z 2 20 SetKind_None] = Ok t
    /\ Reallocate Z Z (fun z => z) JitHashTableBehavior sample_primes t 1 = Assert_failed
    /\ Reallocate Z Z (fun z => z) JitHashTableBehavior sample_primes t 200 = No_memory
    /\ exists t', Reallocate Z Z (fun z => z) JitHashTableBehavior sample_primes t 40 = Ok t'
    /\ table_size Z Z t' = 47 /\ GetCount Z Z t' = 2.
Proof.
  eexists. split; [reflexivity|].
  pose proof (Reallocate_outcomes Z Z (fun z => z) Z.eqb JitHashTableBehavior sample_primes
              Z.eqb_eq sample_primes_range sample_primes_exact
                [op_Set Z Z 1 10 SetKind_None; op_Set Z Z 2 20 SetKind_None] _ 1 eq_refl) as H1.
  pose proof (Reallocate_outcomes Z Z (fun z => z) Z.eqb JitHashTableBehavior sample_primes
              Z.eqb_eq sample_primes_range sample_primes_exact
                [op_Set Z Z 1 10 SetKind_None; op_Set Z Z 2 20 SetKind_None] _ 200 eq_refl) as H2.
  pose proof (Reallocate_outcomes Z Z (fun z => z) Z.eqb JitHashTableBehavior sample_primes
              Z.eqb_eq sample_primes_range sample_primes_exact
                [op_Set Z Z 1 10 SetKind_None; op_Set Z Z 2 20 SetKind_None] _ 40 eq_refl) as H3.
  cbv zeta in H1, H2, H3.
  split; [exact (proj1 H1 ltac:(apply Z.ltb_lt; reflexivity))|].
  split; [exact (proj1 (proj2 H2) ltac:(apply Z.leb_le; reflexivity) eq_refl)|].
  destruct (proj2 (proj2 H3) (mkJitPrimeInfo 47 2924233053 5) ltac:(apply Z.leb_le; reflexivity) eq_refl)
    as (t' & Hr & _ & Hs & Hc & _).
  exists t'. split; [exact Hr|]. split; [exact Hs | exact Hc].
Defined.

Lemma no_growth_past_threshold_witness :
  exists t, run Z Z (fun z => z) Z.eqb JitHashTableBehavior sample_primes5 (empty_table Z Z)
              [op_Set Z Z 1 10 SetKind_None; op_Set Z Z 2 20 SetKind_None;
               op_Set Z Z 3 30 SetKind_None; op_Set Z Z 4 40 SetKind_None;
               op_Reallocate Z Z 5] = Ok t
    /\ m_tableMax Z Z t = 3 /\ GetCount Z Z t = 4 /\ table_size Z Z t = 5
    /\ exists t', run Z Z (fun z => z) Z.eqb JitHashTableBehavior sample_primes5 t
                   [op_Set Z Z 5 50 SetKind_None; op_Set Z Z 6 60 SetKind_None;
                    op_Set Z Z 7 70 SetKind_None] = Ok t'
    /\ table_size Z Z t' = 5 /\ GetCount Z Z t' = 7.
Proof.
  eexists. split; [reflexivity|]. split; [reflexivity|]. split; [reflexivity|].
  split; [reflexivity|].
  destruct (no_growth_past_threshold Z Z (fun z => z) Z.eqb JitHashTableBehavior sample_primes5
              Z.eqb_eq sample_primes5_range sample_primes5_exact
              [op_Set Z Z 1 10 SetKind_None; op_Set Z Z 2 20 SetKind_None;
               op_Set Z Z 3 30 SetKind_None; op_Set Z Z 4 40 SetKind_None;
               op_Reallocate Z Z 5] _ SetKind_None [(5, 50); (6, 60); (7, 70)] eq_refl
              ltac:(apply Z.ltb_lt; reflexivity) ltac:(apply Z.leb_le; reflexivity)
              ltac:(simpl; repeat constructor; simpl; lia)
              ltac:(simpl; intros k [<-|[<-|[<-|[]]]]; vm_compute; reflexivity))
    as (t' & Hr & _ & Hs & _ & Hc).
  exists t'. split; [exact Hr|]. split; [rewrite Hs; reflexivity | rewrite Hc; reflexivity].
Defined.

Lemma iterator_begin_end_witness :
  exists t, run Z Z (fun z => z) Z.eqb JitHashTableBehavior sample_primes (empty_table Z Z)
              [op_Set Z Z 1 10 SetKind_None; op_Remove Z Z 1] = Ok t
    /\ it_node Z Z (NodeIterator_begin Z Z t) = []
    /\ Next Z Z (NodeIterator_end Z Z t) = NodeIterator_end Z Z t.
Proof.
  eexists. split; [reflexivity|].
  destruct (iterator_begin_end Z Z (fun z => z) Z.eqb JitHashTableBehavior sample_primes
              Z.eqb_eq sample_primes_range sample_primes_exact
              [op_Set Z Z 1 10 SetKind_None; op_Remove Z Z 1] _ eq_refl) as (Hb & _ & He).
  split; [apply Hb; reflexivity | exact He].
Defined.

Lemma Grow_overflow_default_witness :
  Grow Z Z (fun z => z) JitHashTableBehavior sample_primes
    (mkJitHashTable Z Z None JitPrimeInfo_default 715827883 0) = No_memory
  /\ GrowSize JitHashTableBehavior 715827882 = 1431655764.
Proof.
  split.
  - exact (proj2 (Grow_overflow_default Z Z (fun z => z) JitHashTableBehavior sample_primes eq_refl
             (mkJitHashTable Z Z None JitPrimeInfo_default 715827883 0))
             ltac:(simpl; lia)).
  - exact (proj1 (proj1 (Grow_overflow_default Z Z (fun z => z) JitHashTableBehavior sample_primes
             eq_refl (mkJitHashTable Z Z None JitPrimeInfo_default 715827882 0))
             ltac:(simpl; lia))).
Defined.


Lemma magicNumberRem_exact_witness :
  magicNumberDivide (mkJitPrimeInfo 11 3123612579 3) 4294967295 = 390451572
  /\ magicNumberRem (mkJitPrimeInfo 11 3123612579 3) 4294967295 = Ok 3.
Proof.
  exact (magicNumberRem_exact (mkJitPrimeInfo 11 3123612579 3) ltac:(simpl; lia) ltac:(simpl; lia)
           ltac:(simpl; lia) 4294967295 ltac:(lia)).
Defined.

Lemma JitLargePrimitiveKeyFuncs_halves_witness :
  JitLargePrimitiveKeyFuncs_GetHashCode 8 0 4607182418800017408 = Ok 1072693248
  /\ JitLargePrimitiveKeyFuncs_GetHashCode 8 0 1072693248 = Ok 1072693248.
Proof.
  destruct (JitLargePrimitiveKeyFuncs_halves 0 0 4607182418800017408 ltac:(lia))
    as (h & H1 & _ & H2 & _).
  assert (Eh : h = 1072693248) by (vm_compute in H1; congruence).
  subst h. split; [exact H1 | exact H2].
Defined.

(** * Counterexamples *)

(** C4: the first [Set] into an empty table already grows it (count 0
    equals the threshold 0), and the size [Grow] requests from count 5
    with the default behavior is 9, not 10. *)
Lemma first_insert_grows :
  needs_growth Z Z (empty_table Z Z) = true
  /\ table_size Z Z (empty_table Z Z) = 0
  /\ (exists t1, Set_ Z Z (fun z => z) Z.eqb JitHashTableBehavior sample_primes
                   (empty_table Z Z) 1 10 SetKind_None = Ok (false, t1)
                 /\ table_size Z Z t1 = 11)
  /\ GrowSize JitHashTableBehavior 5 = 9.
Proof.
  split; [reflexivity|]. split; [reflexivity|]. split; [|reflexivity].
  eexists. split; reflexivity.
Defined.

(** C5: Set 1, Remove 1, Set 1: one distinct key was ever inserted and one
    key was removed, yet [GetCount] is 1. *)
Lemma reinsert_counts_once :
  exists t, run Z Z (fun z => z) Z.eqb JitHashTableBehavior sample_primes (empty_table Z Z)
              [op_Set Z Z 1 10 SetKind_None; op_Remove Z Z 1; op_Set Z Z 1 10 SetKind_None] = Ok t
    /\ GetCount Z Z t = 1.
Proof. eexists. split; reflexivity. Defined.

(** C7: the bucket array of one table goes from 47 buckets to none
    ([RemoveAll]) and then to 11 ([Set]); an explicit [Reallocate] also
    shrinks it from 47 to 11 buckets. *)
Lemma bucket_array_shrinks :
  exists t1 t2 t3 t4,
    run Z Z (fun z => z) Z.eqb JitHashTableBehavior sample_primes (empty_table Z Z)
      [op_Set Z Z 1 10 SetKind_None; op_Reallocate Z Z 40] = Ok t1
    /\ table_size Z Z t1 = 47
    /\ exec Z Z (fun z => z) Z.eqb JitHashTableBehavior sample_primes t1 (op_RemoveAll Z Z) = Ok t2
    /\ table_size Z Z t2 = 0
    /\ exec Z Z (fun z => z) Z.eqb JitHashTableBehavior sample_primes t2
         (op_Set Z Z 1 10 SetKind_None) = Ok t3
    /\ table_size Z Z t3 = 11
    /\ exec Z Z (fun z => z) Z.eqb JitHashTableBehavior sample_primes t1 (op_Reallocate Z Z 5) = Ok t4
    /\ table_size Z Z t4 = 11.
Proof.
  do 4 eexists. repeat split; reflexivity.
Defined.

